(** * statmodel: datasets, fitted results and the summary table

    A shallow embedding of [statmodel/core.go].  Go values are modelled as
    follows.

    - [int] is [Z]; sums and products of ints wrap around at 64 bits
      ([int_add], [int_mul]).
    - A slice is a [list]; a slice that the code compares with [nil] is an
      [option (list _)], [None] being [nil].  Indexing and [make] panic as the
      Go runtime does ([index], [make]).
    - [float64] is a carrier [F] with the operations the code uses
      ([Float64], [MathSqrt], [MathAbs], [MathErfc]).  The IEEE instance is
      Rocq's primitive binary64 ([float]); the exact instance ([Qc]) is used
      where a statement is about exact arithmetic, and [expr] leaves the
      operations uninterpreted.
    - A call that may panic returns an [outcome]; a method with a pointer
      receiver is a function from the receiver's state to an outcome holding
      the returned value and the new state.
    - [gonum]'s [mat.NewDense]/[Dense.Inverse] is a parameter ([MatInverse]),
      as is the padding of [fmt.Sprintf] ([FmtPkg]). *)

From Stdlib Require Import ZArith String List Lia Floats QArith Qcanon.
From stdpp Require Import base tactics option list strings pretty.

Local Open Scope string_scope.
Local Open Scope Z_scope.

(** ** The Go runtime *)

(** The result of a call: a value, or a panic with its message. *)
Inductive outcome (A : Type) : Type :=
  | Ok (a : A)
  | Panic (msg : string).
Arguments Ok {A} a.
Arguments Panic {A} msg.

#[export] Instance outcome_ret : MRet outcome := fun A a => Ok a.
#[export] Instance outcome_bind : MBind outcome := fun A B k m =>
  match m with
  | Ok a => k a
  | Panic msg => Panic msg
  end.

Definition panics {A : Type} (m : outcome A) : Prop := exists msg, m = Panic msg.

Definition newline : string := String (Ascii.ascii_of_nat 10) EmptyString.

(** 64-bit two's complement wrap-around of Go's [int]. *)
Definition max_int : Z := 2 ^ 63 - 1.
Definition min_int : Z := - 2 ^ 63.
Definition int_wrap (z : Z) : Z := (z + 2 ^ 63) mod 2 ^ 64 - 2 ^ 63.
Definition int_add (a b : Z) : Z := int_wrap (a + b).
Definition int_sub (a b : Z) : Z := int_wrap (a - b).
Definition int_mul (a b : Z) : Z := int_wrap (a * b).

(** [len(s)] as an [int]. *)
Definition len {A : Type} (l : list A) : Z := Z.of_nat (length l).
Definition strlen (s : string) : Z := Z.of_nat (String.length s).

(** [l[i]]: a run-time panic when [i] is out of range. *)
Definition index_msg (i : Z) (n : Z) : string :=
  "runtime error: index out of range [" +:+ pretty i +:+ "] with length " +:+ pretty n.

Definition index {A : Type} (l : list A) (i : Z) : outcome A :=
  if i <? 0 then Panic (index_msg i (len l))
  else match l !! Z.to_nat i with
       | Some x => Ok x
       | None => Panic (index_msg i (len l))
       end.

(** [l[i] = x]. *)
Definition store {A : Type} (l : list A) (i : Z) (x : A) : outcome (list A) :=
  if i <? 0 then Panic (index_msg i (len l))
  else if i <? len l then Ok (<[Z.to_nat i := x]> l)
  else Panic (index_msg i (len l)).

(** [for i := range l]: the indices [0 .. len(l)-1] as ints. *)
Definition indices {A : Type} (l : list A) : list Z := Z.of_nat <$> seq 0 (length l).

(** A loop whose body may panic: the body is run on each element in turn with
    the state reached so far. *)
Fixpoint for_each {A S : Type} (body : S -> A -> outcome S) (l : list A) (s : S)
  : outcome S :=
  match l with
  | [] => Ok s
  | a :: l' => s' ← body s a; for_each body l' s'
  end.

(** [range l] with both the index and the element. *)
Definition enumerate {A : Type} (l : list A) : list (Z * A) := zip (indices l) l.

(** [strings.Repeat]: panics on a negative count, and when the result would be
    longer than an [int] can say. *)
Fixpoint repeat_string (s : string) (n : nat) : string :=
  match n with
  | O => ""
  | S n' => s +:+ repeat_string s n'
  end.

Definition Repeat (s : string) (count : Z) : outcome string :=
  if count <? 0 then Panic "strings: negative Repeat count"
  else if strlen s * count >? max_int then Panic "strings: Repeat output length overflow"
  else Ok (repeat_string s (Z.to_nat count)).

(** ** float64 *)

(** The arithmetic of [float64] that the code uses, and its literals. *)
Class Float64 (F : Type) : Type := {
  f_zero : F;
  f_one : F;
  f_two : F;
  f_half : F;
  f_add : F -> F -> F;
  f_mul : F -> F -> F;
  f_div : F -> F -> F;
  f_neg : F -> F
}.

(** The functions of package [math] that the code calls. *)
Class MathSqrt (F : Type) : Type := Sqrt : F -> F.
Class MathAbs (F : Type) : Type := Abs : F -> F.
Class MathErfc (F : Type) : Type := Erfc : F -> F.

(** [make([]float64, n)]: [n] zeros; panics on a negative length. *)
Definition make {F : Type} {F64 : Float64 F} (n : Z) : outcome (list F) :=
  if n <? 0 then Panic "runtime error: makeslice: len out of range"
  else Ok (replicate (Z.to_nat n) f_zero).

(** IEEE 754 binary64. *)
#[export] Instance ieee_float64 : Float64 float := {|
  f_zero := 0%float;
  f_one := 1%float;
  f_two := 2%float;
  f_half := 0.5%float;
  f_add := PrimFloat.add;
  f_mul := PrimFloat.mul;
  f_div := PrimFloat.div;
  f_neg := PrimFloat.opp
|}.
#[export] Instance ieee_sqrt : MathSqrt float := PrimFloat.sqrt.
#[export] Instance ieee_abs : MathAbs float := PrimFloat.abs.

(** Exact rational arithmetic. *)
#[export] Instance exact_float64 : Float64 Qc := {|
  f_zero := Q2Qc 0;
  f_one := Q2Qc 1;
  f_two := Q2Qc 2;
  f_half := Q2Qc (1 # 2);
  f_add := Qcplus;
  f_mul := Qcmult;
  f_div := Qcdiv;
  f_neg := Qcopp
|}.

(** Uninterpreted arithmetic: a computation over [expr] returns the expression
    that the code evaluates. *)
Inductive expr : Type :=
  | Lit (q : Q)
  | Add (a b : expr)
  | Mul (a b : expr)
  | Div (a b : expr)
  | Neg (a : expr)
  | SqrtOf (a : expr)
  | AbsOf (a : expr)
  | ErfcOf (a : expr).

#[export] Instance expr_float64 : Float64 expr := {|
  f_zero := Lit 0;
  f_one := Lit 1;
  f_two := Lit 2;
  f_half := Lit (1 # 2);
  f_add := Add;
  f_mul := Mul;
  f_div := Div;
  f_neg := Neg
|}.
#[export] Instance expr_sqrt : MathSqrt expr := SqrtOf.
#[export] Instance expr_abs : MathAbs expr := AbsOf.
#[export] Instance expr_erfc : MathErfc expr := ErfcOf.

(** ** Dataset *)

Section Dataset.
Context {Dtype : Type}.

(** [basicData], the default implementation of the [Dataset] interface. *)
Record basicData : Type := mkBasicData {
  data : list (list Dtype);
  yname : string;
  varnames : list string;
  xnames : list string
}.

Definition Data (bd : basicData) : list (list Dtype) := data bd.
Definition Yname (bd : basicData) : string := yname bd.
Definition Varnames (bd : basicData) : list string := varnames bd.
Definition Xnames (bd : basicData) : list string := xnames bd.

(** The [Columnser] interface. *)
Record Columnser : Type := mkColumnser {
  c_Names : list string;
  c_Data : list (list Dtype)
}.

Definition FromColumns (c : Columnser) (yname : string) (xnames : list string)
  : basicData :=
  let na := c_Names c in
  let da := c_Data c in
  {| data := da; yname := yname; varnames := na; xnames := xnames |}.

Definition NewDataset (data : list (list Dtype)) (varnames : list string)
    (yname : string) (xnames : list string) : outcome basicData :=
  if negb (len data =? len varnames) then
    Panic ("len(data)=" +:+ pretty (len data) +:+ " and len(varnames)="
           +:+ pretty (len varnames) +:+ " are not compatible" +:+ newline)
  else
    Ok {| data := data; varnames := varnames; yname := yname; xnames := xnames |}.

(** A declared response or predictor name that is not a variable name. *)
Definition name_mismatch (varnames : list string) (yname : string)
    (xnames : list string) : Prop :=
  yname ∉ varnames \/ exists x, x ∈ xnames /\ x ∉ varnames.
End Dataset.

Arguments basicData : clear implicits.
Arguments Columnser : clear implicits.

(** ** Parameters and models *)

(** [HessType]: the observed and the expected Hessian. *)
Inductive HessType : Type := ObsHess | ExpHess.

(** The [Parameter] interface ([Param], the source's name being a keyword),
    over the type [P] that implements it. *)
Class Param (F P : Type) : Type := {
  GetCoeff : P -> list F;
  SetCoeff : list F -> P -> P;
  Clone : P -> P
}.

(** The [RegFitter] interface: a value of an implementing type, as the record
    of its methods.  [Score] and [Hessian] write into the slice they are given;
    they return its contents after the call. *)
Record RegFitter (F P : Type) : Type := mkRegFitter {
  NumParams : Z;
  NumObs : Z;
  Xpos : list Z;
  Dataset : list (list F);
  LogLike : P -> bool -> F;
  Score : P -> list F -> list F;
  Hessian : P -> HessType -> list F -> list F
}.
Arguments NumParams {F P} _.
Arguments NumObs {F P} _.
Arguments Xpos {F P} _.
Arguments Dataset {F P} _.
Arguments LogLike {F P} _ _ _.
Arguments Score {F P} _ _ _.
Arguments Hessian {F P} _ _ _ _.

(** ** Results *)

Section Results.
Context {F P : Type} {F64 : Float64 F}.

Record BaseResults : Type := mkBaseResults {
  model : RegFitter F P;
  loglike : F;
  params : list F;
  r_xnames : list string;
  vcov : option (list F);
  stderr : option (list F);
  zscores : option (list F);
  pvalues : option (list F)
}.

Definition NewBaseResults (model : RegFitter F P) (loglike : F) (params : list F)
    (xnames : list string) (vcov : option (list F)) : BaseResults :=
  {| model := model; loglike := loglike; params := params; r_xnames := xnames;
     vcov := vcov; stderr := None; zscores := None; pvalues := None |}.

(** Assignments to the cache fields of the receiver. *)
Definition set_stderr (rslt : BaseResults) (v : list F) : BaseResults :=
  {| model := model rslt; loglike := loglike rslt; params := params rslt;
     r_xnames := r_xnames rslt; vcov := vcov rslt;
     stderr := Some v; zscores := zscores rslt; pvalues := pvalues rslt |}.
Definition set_zscores (rslt : BaseResults) (v : list F) : BaseResults :=
  {| model := model rslt; loglike := loglike rslt; params := params rslt;
     r_xnames := r_xnames rslt; vcov := vcov rslt;
     stderr := stderr rslt; zscores := Some v; pvalues := pvalues rslt |}.
Definition set_pvalues (rslt : BaseResults) (v : list F) : BaseResults :=
  {| model := model rslt; loglike := loglike rslt; params := params rslt;
     r_xnames := r_xnames rslt; vcov := vcov rslt;
     stderr := stderr rslt; zscores := zscores rslt; pvalues := Some v |}.

(** The accessors that compute nothing. *)
Definition Model (rslt : BaseResults) : RegFitter F P := model rslt.
Definition Names (rslt : BaseResults) : list string := r_xnames rslt.
Definition Params (rslt : BaseResults) : list F := params rslt.
Definition VCov (rslt : BaseResults) : option (list F) := vcov rslt.
Definition ResultsLogLike (rslt : BaseResults) : F := loglike rslt.

(** [range s] over a slice that may be nil: nil has no element. *)
Definition elems (s : option (list F)) : list F := default [] s.

(** [FittedValues]: the receiver is only read.  (Where the compiler fuses the
    multiplication and the addition the sum is rounded once; no statement
    below depends on the rounding.) *)
Definition FittedValues (rslt : BaseResults) (da : option (list (list F)))
  : outcome (list F) :=
  let xpos := Xpos (model rslt) in
  let da := match da with
            | None => Dataset (model rslt)
            | Some d => d
            end in
  if negb (len da =? len (Dataset (model rslt))) then
    Panic ("Data has incorrect number of columns, " +:+ pretty (len da) +:+ " != "
           +:+ pretty (len (Dataset (model rslt))) +:+ newline)
  else
    fv ← make (NumObs (model rslt));
    for_each (fun fv '(k, j) =>
        z ← index da j;
        for_each (fun fv i =>
            a ← index fv i;
            b ← index (params rslt) k;
            c ← index z i;
            store fv i (f_add a (f_mul b c)))
          (indices z) fv)
      (enumerate xpos) fv.

(** [StdErr] *)
Definition StdErr {M_sqrt : MathSqrt F} (rslt : BaseResults)
  : outcome (option (list F) * BaseResults) :=
  match vcov rslt with
  | None => Ok (None, rslt)
  | Some v =>
    let p := NumParams (model rslt) in
    match stderr rslt with
    | Some se => Ok (Some se, rslt)
    | None =>
      se ← make p;
      se ← for_each (fun se i =>
                x ← index v (int_add (int_mul i p) i);
                store se i (Sqrt x))
             (indices se) se;
      Ok (Some se, set_stderr rslt se)
    end
  end.

(** [ZScores] *)
Definition ZScores {M_sqrt : MathSqrt F} (rslt : BaseResults)
  : outcome (option (list F) * BaseResults) :=
  match vcov rslt with
  | None => Ok (None, rslt)
  | Some _ =>
    let p := NumParams (model rslt) in
    match zscores rslt with
    | Some zs => Ok (Some zs, rslt)
    | None =>
      zs ← make p;
      let rslt := set_zscores rslt zs in
      '(std, rslt) ← StdErr rslt;
      zs ← for_each (fun zs i =>
                b ← index (params rslt) i;
                s ← index (elems std) i;
                store zs i (f_div b s))
             (indices (elems std)) zs;
      Ok (Some zs, set_zscores rslt zs)
    end
  end.

Definition normcdf {M_sqrt : MathSqrt F} {M_erfc : MathErfc F} (x : F) : F :=
  f_mul f_half (Erfc (f_div (f_neg x) (Sqrt f_two))).

(** [PValues]: the loop ranges over the field [zscores] as it stands. *)
Definition PValues {M_sqrt : MathSqrt F} {M_abs : MathAbs F} {M_erfc : MathErfc F}
    (rslt : BaseResults) : outcome (option (list F) * BaseResults) :=
  match vcov rslt with
  | None => Ok (None, rslt)
  | Some _ =>
    let p := NumParams (model rslt) in
    match pvalues rslt with
    | Some pv => Ok (Some pv, rslt)
    | None =>
      pv ← make p;
      pv ← for_each (fun pv '(i, z) =>
                store pv i (f_mul f_two (normcdf (f_neg (Abs z)))))
             (enumerate (elems (zscores rslt))) pv;
      Ok (Some pv, set_pvalues rslt pv)
    end
  end.
End Results.

Arguments BaseResults : clear implicits.

(** ** The covariance matrix *)

(** [gonum]'s [mat.NewDense (n, n, a)] followed by [Inverse] into an [n] by [n]
    receiver: the receiver's data (row-major) when [Inverse] returns no error,
    the error when it returns one, a panic when the library panics. *)
Class MatInverse (F E : Type) : Type :=
  Inverse : Z -> list F -> outcome (E + list F).

Section Vcov.
Context {F P E : Type} {F64 : Float64 F} {Inv : MatInverse F E}.

(** [Dense.Scale]: every entry multiplied by [f]. *)
Definition Scale (f : F) (a : list F) : list F := f_mul f <$> a.

(** [GetVcov]: the covariance matrix and the error, with what was written to
    [os.Stderr].  [Inverse] stores the inverse in the matrix over [hessi], which
    [Scale] then negates in place. *)
Definition GetVcov (model : RegFitter F P) (params : P)
  : outcome (option (list F) * option E * string) :=
  let nvar := NumParams model in
  let n2 := int_mul nvar nvar in
  hess ← make n2;
  let hess := Hessian model params ExpHess hess in
  hessi ← make n2;
  r ← Inverse nvar hess;
  match r with
  | inl err => Ok (None, Some err, "Can't invert Hessian" +:+ newline)
  | inr hessi => Ok (Some (Scale (f_neg f_one) hessi), None, "")
  end.

(** The buffer [GetVcov] hands to the library: [NumParams()] squared zeros,
    after the model has written its expected Hessian into it. *)
Definition ExpectedHessian (model : RegFitter F P) (params : P) : list F :=
  let nvar := NumParams model in
  Hessian model params ExpHess (replicate (Z.to_nat (int_mul nvar nvar)) f_zero).

(** Square matrices of size [n], row-major, and their product. *)
Definition entry (n : nat) (a : list F) (i j : nat) : F :=
  default f_zero (a !! (i * n + j)%nat).
Definition dot (n : nat) (a b : list F) (i j : nat) : F :=
  foldr (fun k acc => f_add (f_mul (entry n a i k) (entry n b k j)) acc)
        f_zero (seq 0 n).
Definition matmul (n : nat) (a b : list F) : list F :=
  i ← seq 0 n; j ← seq 0 n; [dot n a b i j].
Definition identity (n : nat) : list F :=
  i ← seq 0 n; j ← seq 0 n; [if (i =? j)%nat then f_one else f_zero].
Definition mat_neg (a : list F) : list F := f_neg <$> a.
End Vcov.

(** The exact inverse of a 1 by 1 or 2 by 2 rational matrix, by the adjugate
    formula: an error when the determinant is zero.  Other shapes are outside
    what it covers. *)
Definition adjugate_inverse (n : Z) (a : list Qc) : outcome (string + list Qc) :=
  match n, a with
  | 1, [x] =>
    if decide (x = Q2Qc 0) then Ok (inl "matrix singular or near-singular")
    else Ok (inr [Qcinv x])
  | 2, [x; y; z; w] =>
    let det := (x * w - y * z)%Qc in
    if decide (det = Q2Qc 0) then Ok (inl "matrix singular or near-singular")
    else Ok (inr [(w / det)%Qc; (- y / det)%Qc; (- z / det)%Qc; (x / det)%Qc])
  | _, _ => Panic "mat: dimension mismatch"
  end.

(** The value of an expression built from literals by the field operations. *)
Fixpoint exact (e : expr) : option Qc :=
  match e with
  | Lit q => Some (Q2Qc q)
  | Add a b => x ← exact a; y ← exact b; Some (x + y)%Qc
  | Mul a b => x ← exact a; y ← exact b; Some (x * y)%Qc
  | Div a b => x ← exact a; y ← exact b;
               if decide (y = Q2Qc 0) then None else Some (x / y)%Qc
  | Neg a => x ← exact a; Some (- x)%Qc
  | _ => None
  end.

(** The inverse of a matrix of such expressions. *)
#[export] Instance expr_inverse : MatInverse expr string := fun n a =>
  match mapM (M := option) exact a with
  | Some qs =>
    match adjugate_inverse n qs with
    | Ok (inl err) => Ok (inl err)
    | Ok (inr hi) => Ok (inr ((fun q : Qc => Lit (this q)) <$> hi))
    | Panic msg => Panic msg
    end
  | None => Panic "mat: entry is not a number"
  end.

#[export] Instance exact_inverse : MatInverse Qc string := adjugate_inverse.

(** [Inverse] on a 1 by 1 matrix of IEEE floats: the LU factorisation of [[x]]
    is [x] itself, which the library inverts as [1 / x]; an error when the
    pivot is zero.  Other shapes are outside what it covers. *)
Definition reciprocal_inverse : MatInverse float string := fun n a =>
  match n, a with
  | 1, [x] =>
    if PrimFloat.eqb x 0 then Ok (inl "matrix singular or near-singular")
    else Ok (inr [PrimFloat.div 1 x])
  | _, _ => Panic "mat: dimension mismatch"
  end.

(** ** The summary table *)

(** [fmt.Sprintf] with the formats ["%-Ns"] and ["%Ns"]: the string padded with
    spaces on the right, or on the left, to [N] runes. *)
Class FmtPkg : Type := {
  SprintfLeft : Z -> string -> string;
  SprintfRight : Z -> string -> string
}.

(** Padding by bytes: [fmt] on ASCII text. *)
Definition ascii_fmt : FmtPkg := {|
  SprintfLeft n x := x +:+ repeat_string " " (Z.to_nat (n - strlen x));
  SprintfRight n x := repeat_string " " (Z.to_nat (n - strlen x)) +:+ x
|}.

Section Summary.
(** [Col] stands for [interface{}], the type of a column. *)
Context {Col : Type} {fmt : FmtPkg}.

Definition Fmter : Type := Col -> string -> list string.

Record SummaryTable : Type := mkSummaryTable {
  Title : string;
  ColNames : list string;
  ColFmt : list Fmter;
  Cols : list Col;
  Top : list string;
  Msg : list string;
  tw : Z
}.

Definition set_Top (s : SummaryTable) (top : list string) : SummaryTable :=
  {| Title := Title s; ColNames := ColNames s; ColFmt := ColFmt s; Cols := Cols s;
     Top := top; Msg := Msg s; tw := tw s |}.
Definition set_tw (s : SummaryTable) (w : Z) : SummaryTable :=
  {| Title := Title s; ColNames := ColNames s; ColFmt := ColFmt s; Cols := Cols s;
     Top := Top s; Msg := Msg s; tw := w |}.

Definition line (s : SummaryTable) (c : string) : outcome string :=
  r ← Repeat c (tw s); Ok (r +:+ newline).

(** The width all the fields of the top part are brought to. *)
Definition topWidth (top : list string) (w : Z) : Z :=
  fold_left (fun w x => if strlen x >? w then strlen x else w) top w.

Definition cleanTop (s : SummaryTable) : outcome SummaryTable :=
  x0 ← index (Top s) 0;
  let w := topWidth (Top s) (strlen x0) in
  top ← for_each (fun top '(i, x) =>
            if strlen x <? w then
              pad ← Repeat " " (int_sub w (strlen x));
              store top i (x +:+ pad)
            else Ok top)
         (enumerate (Top s)) (Top s);
  Ok (set_Top s top).

Definition top (s : SummaryTable) (gap : Z) : outcome string :=
  w ← for_each (fun w '(j, x) =>
          wj ← index w (Z.rem j 2);
          if strlen x >? wj then store w (Z.rem j 2) (strlen x) else Ok w)
       (enumerate (Top s)) [0; 0];
  b ← for_each (fun b '(j, x) =>
          wj ← index w (Z.rem j 2);
          let b := b +:+ SprintfLeft wj x in
          if Z.rem j 2 =? 1 then Ok (b +:+ newline)
          else sp ← Repeat " " gap; Ok (b +:+ sp))
       (enumerate (Top s)) "";
  if Z.rem (len (Top s)) 2 =? 1 then Ok (b +:+ newline) else Ok b.

(** The first loop of [String]: the formatted columns [tab] and the column
    widths [wx]. *)
Definition colWidths (s : SummaryTable) : outcome (list (list string) * list Z) :=
  for_each (fun '(tab, wx) '(j, c) =>
      f ← index (ColFmt s) j;
      name ← index (ColNames s) j;
      let u := f c name in
      let tab := (tab ++ [u])%list in
      u0 ← index u 0;
      if strlen u0 >? strlen name then Ok (tab, (wx ++ [strlen u0])%list)
      else Ok (tab, (wx ++ [strlen name])%list))
    (enumerate (Cols s)) ([], []).

(** The total width of the table, from the column widths. *)
Definition totalWidth (s : SummaryTable) (gap : Z) (wx : list Z) : outcome Z :=
  let tw := fold_left int_add wx 0 in
  let tw := if tw <? strlen (Title s) then strlen (Title s) else tw in
  top0 ← index (Top s) 0;
  let g := int_add gap (int_mul 2 (strlen top0)) in
  Ok (if tw <? g then g else tw).

(** [String]: the text, and the receiver with its top fields padded and its
    total width set. *)
Definition String (s : SummaryTable) : outcome (string * SummaryTable) :=
  s ← cleanTop s;
  '(tab, wx) ← colWidths s;
  let gap := 10 in
  w ← totalWidth s gap wx;
  let s := set_tw s w in
  let k := strlen (Title s) in
  let kr := Z.quot (int_sub (tw s) k) 2 in
  let kr := if kr <? 0 then 0 else kr in
  sp ← Repeat " " kr;
  let buf := sp +:+ Title s +:+ newline in
  l ← line s "=";
  let buf := buf +:+ l in
  t ← top s gap;
  let buf := buf +:+ t in
  l ← line s "-";
  let buf := buf +:+ l in
  buf ← for_each (fun buf '(j, c) =>
            w ← index wx j; Ok (buf +:+ SprintfRight w c))
         (enumerate (ColNames s)) buf;
  let buf := buf +:+ newline in
  l ← line s "-";
  let buf := buf +:+ l in
  tab0 ← index tab 0;
  buf ← for_each (fun buf i =>
            buf ← for_each (fun buf j =>
                      w ← index wx j;
                      col ← index tab j;
                      cell ← index col i;
                      Ok (buf +:+ SprintfRight w cell))
                   (indices tab) buf;
            Ok (buf +:+ newline))
         (indices tab0) buf;
  l ← line s "-";
  let buf := buf +:+ l in
  let buf := fold_left (fun buf msg => buf +:+ msg +:+ newline) (Msg s) buf in
  Ok (buf, s).

(** A field of the top part as [cleanTop] leaves it, given the width. *)
Definition padded (w : Z) (x : string) : string :=
  if strlen x <? w then x +:+ repeat_string " " (Z.to_nat (w - strlen x)) else x.

(** The widest of a list of strings, and the sum of a list of widths. *)
Definition widest (u : list string) : Z :=
  foldr Z.max 0 (strlen <$> u).
Definition sumZ (l : list Z) : Z := foldr Z.add 0 l.
End Summary.

Arguments SummaryTable : clear implicits.
Arguments Fmter : clear implicits.

(** ** The states of a results value *)

Section States.
Context {F P : Type} {F64 : Float64 F} {M_sqrt : MathSqrt F}.

(** The value as [NewBaseResults] built it: the same fit, no cache filled. *)
Definition fresh (rslt : BaseResults F P) : BaseResults F P :=
  NewBaseResults (model rslt) (loglike rslt) (params rslt) (r_xnames rslt) (vcov rslt).

(** The data model of a results value: one coefficient per parameter, and a
    covariance matrix, when present, of as many rows and columns (a slice
    holds at most [max_int] elements). *)
Definition well_formed (rslt : BaseResults F P) : Prop :=
  let p := NumParams (model rslt) in
  0 <= p /\ len (params rslt) = p /\
  forall v, vcov rslt = Some v -> len v = p * p /\ len v <= max_int.

(** The caches of standard errors and of z-scores hold nothing but what the
    accessors themselves compute for this fit. *)
Definition stderr_valid (rslt : BaseResults F P) : Prop :=
  forall se, stderr rslt = Some se ->
    exists r, StdErr (fresh rslt) = Ok (Some se, r).
Definition zscores_valid (rslt : BaseResults F P) : Prop :=
  forall zs, zscores rslt = Some zs ->
    exists r, ZScores (fresh rslt) = Ok (Some zs, r).
Definition caches_valid (rslt : BaseResults F P) : Prop :=
  stderr_valid rslt /\ zscores_valid rslt.

(** The loops of [StdErr] and [ZScores] in closed form. *)
Definition diag (v : list F) (p : Z) (i : nat) : F :=
  default f_zero (v !! Z.to_nat (Z.of_nat i * p + Z.of_nat i)).
Definition std_errors (v : list F) (p : Z) : list F :=
  imap (fun i _ => Sqrt (diag v p i)) (replicate (Z.to_nat p) f_zero).
Definition ratios (b : list F) (se : list F) : list F :=
  imap (fun i s => f_div (default f_zero (b !! i)) s) se.
End States.

(** ** The loops of FittedValues in closed form *)

Section LinearPredictor.
Context {F : Type} {F64 : Float64 F}.

(** One pass of the inner loop of [FittedValues] in closed form: [b] times the
    column [z] added to [fv], entry by entry, as far as the column goes. *)
Definition add_scaled (b : F) (z fv : list F) : list F :=
  imap (fun i a => match z !! i with
                   | Some c => f_add a (f_mul b c)
                   | None => a
                   end) fv.

(** Entry [i] of the fitted values: the products of the coefficients with
    entry [i] of their columns, added to zero in the order of [Xpos()]. *)
Definition predictor_at (ps : list F) (da : list (list F)) (xpos : list Z) (i : nat) : F :=
  fold_left (fun acc '(k, j) =>
      match da !! Z.to_nat j ≫= (fun z => z !! i) with
      | Some c => f_add acc (f_mul (default f_zero (ps !! Z.to_nat k)) c)
      | None => acc
      end)
    (enumerate xpos) f_zero.
End LinearPredictor.

(** ** Examples *)

(** A fit with two parameters on two observations, over IEEE floats. *)
Definition demo_model : RegFitter float unit := {|
  NumParams := 2;
  NumObs := 2;
  Xpos := [0; 1];
  Dataset := [[1; 2]; [3; 4]; [5; 6]]%float;
  LogLike := fun _ _ => 0%float;
  Score := fun _ buf => buf;
  Hessian := fun _ _ buf => buf
|}.
Definition demo_vcov : list float := [4; 1; 1; 9]%float.
Definition demo_results : BaseResults float unit :=
  NewBaseResults demo_model 0%float [3; 6]%float ["x1"; "x2"] (Some demo_vcov).

(** The same fit with a covariance matrix whose second diagonal entry is
    negative. *)
Definition noisy_vcov : list float := [4; 1; 1; -1]%float.
Definition noisy_results : BaseResults float unit :=
  NewBaseResults demo_model 0%float [3; 6]%float ["x1"; "x2"] (Some noisy_vcov).

(** A fit with one parameter over IEEE floats: coefficient 0, variance 1. *)
Definition unit_model : RegFitter float unit := {|
  NumParams := 1;
  NumObs := 0;
  Xpos := [];
  Dataset := [];
  LogLike := fun _ _ => 0%float;
  Score := fun _ buf => buf;
  Hessian := fun _ _ buf => buf
|}.
Definition unit_results : BaseResults float unit :=
  NewBaseResults unit_model 0%float [0%float] ["x"] (Some [1%float]).

(** The same fit over uninterpreted arithmetic: coefficient 0,
    variance 1, so that the z-score is 0 / sqrt 1. *)
Definition sym_model : RegFitter expr unit := {|
  NumParams := 1;
  NumObs := 0;
  Xpos := [];
  Dataset := [];
  LogLike := fun _ _ => Lit 0;
  Score := fun _ buf => buf;
  Hessian := fun _ _ buf => buf
|}.
Definition sym_results : BaseResults expr unit :=
  NewBaseResults sym_model (Lit 0) [Lit 0] ["x"] (Some [Lit 1]).

(** A model with two parameters whose expected Hessian is all zeros: it leaves
    the zeroed buffer as it is. *)
Definition flat_model : RegFitter expr unit := {|
  NumParams := 2;
  NumObs := 0;
  Xpos := [];
  Dataset := [];
  LogLike := fun _ _ => Lit 0;
  Score := fun _ buf => buf;
  Hessian := fun _ _ buf => buf
|}.

(** A model with one parameter over IEEE floats whose expected Hessian is
    [-49]: an invertible 1 by 1 matrix. *)
Definition scalar_model : RegFitter float unit := {|
  NumParams := 1;
  NumObs := 0;
  Xpos := [];
  Dataset := [];
  LogLike := fun _ _ => 0%float;
  Score := fun _ buf => buf;
  Hessian := fun _ _ _ => [-49]%float
|}.

(** The test case "Poisson unweighted 1": two parameters, expected Hessian
    [-7, -10, -10, -86] at the parameter [0, 0]. *)
Definition poisson1 : RegFitter Qc (list Qc) := {|
  NumParams := 2;
  NumObs := 0;
  Xpos := [];
  Dataset := [];
  LogLike := fun _ _ => Q2Qc (-948490664979 # 100000000000);
  Score := fun _ _ => Q2Qc <$> [1 # 1; -6 # 1]%Q;
  Hessian := fun _ _ _ => Q2Qc <$> [-7 # 1; -10 # 1; -10 # 1; -86 # 1]%Q
|}.

(** A table of one column whose second value is wider than the first. *)
Definition ragged_table : SummaryTable (list string) := {|
  Title := "";
  ColNames := ["a"];
  ColFmt := [fun c _ => c];
  Cols := [["1"; "12345678901234567890"]];
  Top := [""];
  Msg := [];
  tw := 0
|}.

(** A table of two columns of equal-width values. *)
Definition small_table : SummaryTable (list string) := {|
  Title := "Results";
  ColNames := ["a"; "bcd"];
  ColFmt := [fun c _ => c; fun c _ => c];
  Cols := [["1.5"; "2.5"]; ["3"; "4"]];
  Top := ["Model: x"; "N: 3"; "k: 1"];
  Msg := ["done"];
  tw := 0
|}.

(** The fit of [demo_results] with a covariance matrix of three entries, and
    with one coefficient, where the model has two parameters. *)
Definition short_vcov_results : BaseResults float unit :=
  NewBaseResults demo_model 0%float [3; 6]%float ["x1"; "x2"] (Some [4; 1; 1]%float).
Definition short_params_results : BaseResults float unit :=
  NewBaseResults demo_model 0%float [3%float] ["x1"; "x2"] (Some demo_vcov).

(** A model with the expected Hessian of [poisson1] whose observed Hessian
    is another matrix: it leaves the buffer as it is. *)
Definition poisson1_observed : RegFitter Qc (list Qc) := {|
  NumParams := 2;
  NumObs := 0;
  Xpos := [];
  Dataset := [];
  LogLike := fun _ _ => Q2Qc 0;
  Score := fun _ buf => buf;
  Hessian := fun _ t buf =>
    match t with
    | ExpHess => Q2Qc <$> [-7 # 1; -10 # 1; -10 # 1; -86 # 1]%Q
    | ObsHess => buf
    end
|}.

(** * Properties *)

Local Open Scope list_scope.

(** ** The Go runtime *)

Lemma int_wrap_id (z : Z) : min_int <= z <= max_int -> int_wrap z = z.
Proof.
  unfold min_int, max_int, int_wrap. intros Hz.
  rewrite Z.mod_small; lia.
Qed.

Lemma len_nonneg {A : Type} (l : list A) : 0 <= len l.
Proof. unfold len. lia. Qed.

Lemma index_Ok {A : Type} (l : list A) (i : Z) (x : A) :
  index l i = Ok x <-> 0 <= i /\ l !! Z.to_nat i = Some x.
Proof.
  unfold index. destruct (Z.ltb_spec i 0) as [Hi | Hi].
  - split; [discriminate | lia].
  - destruct (l !! Z.to_nat i) as [y|]; split.
    + intros [= ->]. auto.
    + intros [_ [= ->]]. reflexivity.
    + discriminate.
    + intros [_ [=]].
  Qed.

Lemma index_of_nat {A : Type} (l : list A) (i : nat) (x : A) :
  l !! i = Some x -> index l (Z.of_nat i) = Ok x.
Proof. intros Hl. apply index_Ok. rewrite Nat2Z.id. split; [lia | done]. Qed.

Lemma index_panics {A : Type} (l : list A) (i : Z) :
  len l <= i -> panics (index l i).
Proof.
  unfold index, len. intros Hi.
  destruct (i <? 0); [eexists; reflexivity |].
  rewrite lookup_ge_None_2 by lia. eexists; reflexivity.
Qed.

Lemma store_of_nat {A : Type} (l : list A) (i : nat) (x : A) :
  (i < length l)%nat -> store l (Z.of_nat i) x = Ok (<[i := x]> l).
Proof.
  unfold store, len. intros Hi.
  destruct (Z.ltb_spec (Z.of_nat i) 0); [lia |].
  destruct (Z.ltb_spec (Z.of_nat i) (Z.of_nat (length l))); [| lia].
  by rewrite Nat2Z.id.
Qed.

Lemma store_length {A : Type} (l l' : list A) (i : Z) (x : A) :
  store l i x = Ok l' -> length l' = length l.
Proof.
  unfold store. destruct (i <? 0); [discriminate |].
  destruct (i <? len l); [| discriminate].
  intros [= <-]. apply length_insert.
Qed.

Lemma make_Ok {F : Type} {F64 : Float64 F} (n : Z) :
  0 <= n -> make n = Ok (replicate (Z.to_nat n) f_zero).
Proof. unfold make. intros Hn. destruct (Z.ltb_spec n 0); [lia | done]. Qed.

Lemma bind_Ok {A B : Type} (m : outcome A) (k : A -> outcome B) (b : B) :
  (x ← m; k x) = Ok b <-> exists a, m = Ok a /\ k a = Ok b.
Proof.
  destruct m as [a | msg]; simpl; split.
  - eauto.
  - intros (a' & [= <-] & Hk). done.
  - discriminate.
  - intros (a' & [=] & _).
Qed.

Lemma indices_enumerate {A : Type} (l : list A) : indices l = (enumerate l).*1.
Proof.
  unfold enumerate. rewrite fst_zip; [done |].
  unfold indices. rewrite length_fmap, length_seq. done.
Qed.

Lemma for_each_fmap {A B S : Type} (f : A -> B) (body : S -> B -> outcome S)
    (l : list A) (s : S) :
  for_each body (f <$> l) s = for_each (fun s a => body s (f a)) l s.
Proof.
  revert s. induction l as [| a l IH]; intros s; simpl; [done |].
  destruct (body s (f a)); simpl; auto.
Qed.

(** A loop that stops at the first panic: when the states it goes through
    keep an invariant under which the body panics on some element, the loop
    panics. *)
Lemma for_each_panics {A S : Type} (I : S -> Prop) (body : S -> A -> outcome S)
    (l : list A) (s : S) (a : A) :
  I s ->
  (forall s x s', I s -> body s x = Ok s' -> I s') ->
  a ∈ l ->
  (forall s, I s -> panics (body s a)) ->
  panics (for_each body l s).
Proof.
  intros HI Hstep Hin Hbad. revert s HI.
  induction l as [| x l IH]; intros s HI.
  - by apply elem_of_nil in Hin.
  - simpl. destruct (body s x) as [s' | msg] eqn:Hb; simpl.
    + apply elem_of_cons in Hin as [-> | Hin].
      * destruct (Hbad s HI) as [msg Hmsg]. congruence.
      * apply IH; eauto.
    + by eexists.
Qed.

(** A loop over [range l] whose body stores a value at the index it is at:
    it fills the slice, element by element. *)
Lemma for_each_fill_from {A B : Type} (body : list B -> Z * A -> outcome (list B))
    (g : nat -> A -> B) (l : list A) (s : list B) (k : nat) (cur : list B) :
  (k + length l <= length s)%nat ->
  length cur = length s ->
  drop k cur = drop k s ->
  (forall cur i a, l !! i = Some a -> length cur = length s ->
     drop (k + i) cur = drop (k + i) s ->
     body cur (Z.of_nat (k + i), a) = Ok (<[(k + i)%nat := g (k + i)%nat a]> cur)) ->
  for_each body (zip (Z.of_nat <$> seq k (length l)) l) cur
  = Ok (take k cur ++ imap (fun i => g (k + i)%nat) l ++ drop (k + length l) s).
Proof.
  revert k cur. induction l as [| a l IH]; intros k cur Hk Hlen Hdrop Hbody.
  - simpl. rewrite Nat.add_0_r, <- Hdrop, take_drop. done.
  - simpl in Hk. cbn [length seq fmap list_fmap zip zip_with for_each].
    specialize (Hbody cur 0%nat a) as Hb. rewrite Nat.add_0_r in Hb.
    rewrite Hb by done. simpl.
    rewrite (IH (S k)).
    + f_equal. rewrite take_S_r with (x := g k a).
      * rewrite take_insert_ge by lia.
        rewrite <- app_assoc. simpl. rewrite Nat.add_0_r.
        do 3 f_equal; [| f_equal; lia].
        apply imap_ext. intros i x _. simpl. f_equal. lia.
      * apply list_lookup_insert_eq. lia.
    + lia.
    + by rewrite length_insert.
    + rewrite drop_insert_lt by lia.
      rewrite <- (Nat.add_1_r k), <- !drop_drop, Hdrop. done.
    + intros cur' i a' Hi Hlen' Hdrop'.
      replace (S k + i)%nat with (k + S i)%nat by lia.
      apply Hbody; [done | done |].
      by replace (k + S i)%nat with (S k + i)%nat by lia.
Qed.

Lemma for_each_fill {A B : Type} (body : list B -> Z * A -> outcome (list B))
    (g : nat -> A -> B) (l : list A) (s : list B) :
  length s = length l ->
  (forall cur i a, l !! i = Some a -> length cur = length s ->
     drop i cur = drop i s ->
     body cur (Z.of_nat i, a) = Ok (<[i := g i a]> cur)) ->
  for_each body (enumerate l) s = Ok (imap g l).
Proof.
  intros Hlen Hbody. unfold enumerate, indices.
  rewrite (for_each_fill_from body g l s 0 s); try done; [| lia].
  simpl. rewrite drop_ge by lia. by rewrite app_nil_r.
Qed.

Lemma for_each_invariant {A S : Type} (I : S -> Prop) (body : S -> A -> outcome S)
    (l : list A) (s s' : S) :
  I s ->
  (forall s x s', I s -> x ∈ l -> body s x = Ok s' -> I s') ->
  for_each body l s = Ok s' -> I s'.
Proof.
  revert s. induction l as [| x l IH]; intros s HI Hstep; simpl.
  - by intros [= <-].
  - intros (s1 & Hb & Hrest)%bind_Ok.
    apply (IH s1); [| | done].
    + eapply Hstep; [done | | done]. apply elem_of_cons. by left.
    + intros s2 y s3 HI2 Hy. apply Hstep; [done |]. apply elem_of_cons. by right.
Qed.

Lemma indices_lookup {A : Type} (l : list A) (i : nat) :
  (i < length l)%nat -> indices l !! i = Some (Z.of_nat i).
Proof.
  intros Hi. unfold indices. by rewrite list_lookup_fmap, lookup_seq_lt.
Qed.

Lemma enumerate_lookup {A : Type} (l : list A) (i : nat) (x : A) :
  l !! i = Some x -> enumerate l !! i = Some (Z.of_nat i, x).
Proof.
  intros Hx. unfold enumerate. apply lookup_zip_Some.
  split; [| done]. apply indices_lookup. by eapply lookup_lt_Some.
Qed.

Lemma elem_of_indices {A : Type} (l : list A) (i : Z) :
  0 <= i < len l -> i ∈ indices l.
Proof.
  intros Hi. apply list_elem_of_lookup. exists (Z.to_nat i).
  rewrite indices_lookup by (unfold len in Hi; lia). f_equal. lia.
Qed.

Lemma panics_bind {A B : Type} (m : outcome A) (k : A -> outcome B) :
  panics m -> panics (x ← m; k x).
Proof. intros [msg ->]. by exists msg. Qed.

(** A loop whose body returns under an invariant that it keeps returns. *)
Lemma for_each_Ok {A S : Type} (I : S -> Prop) (body : S -> A -> outcome S)
    (l : list A) (s : S) :
  I s ->
  (forall s x, I s -> x ∈ l -> exists s', body s x = Ok s' /\ I s') ->
  exists s', for_each body l s = Ok s' /\ I s'.
Proof.
  revert s. induction l as [| x l IH]; intros s HI Hstep; simpl; [eauto |].
  destruct (Hstep s x HI) as (s1 & -> & HI1); [apply elem_of_cons; by left |].
  simpl. apply IH; [done |].
  intros s2 y HI2 Hy. apply Hstep; [done |]. apply elem_of_cons. by right.
Qed.


(** ** Datasets *)

Section DatasetFacts.
Context {Dtype : Type}.

(** C2, as the code has it: [NewDataset] panics exactly when the number of
    data columns differs from the number of variable names; otherwise it
    returns the dataset with the names as they were given, whether or not
    the declared response and predictor names are variable names.
    [FromColumns] checks nothing. *)
Theorem NewDataset_checks_lengths_only (data : list (list Dtype))
    (varnames : list string) (yname : string) (xnames : list string) :
  (panics (NewDataset data varnames yname xnames) <-> len data <> len varnames) /\
  (len data = len varnames ->
   NewDataset data varnames yname xnames
   = Ok {| data := data; yname := yname; varnames := varnames; xnames := xnames |}) /\
  (forall c : Columnser Dtype,
     FromColumns c yname xnames
     = {| data := c_Data c; yname := yname; varnames := c_Names c; xnames := xnames |}).
Proof.
  unfold NewDataset.
  destruct (Z.eqb_spec (len data) (len varnames)) as [Heq | Hne]; simpl.
  - split; [| done]. split; [by intros [msg [=]] | done].
  - split; [| done]. split; [done | intros _; by eexists].
Qed.
End DatasetFacts.

(** C2, refuted as stated: a dataset whose response name and predictor name
    are not among its variable names is constructed without any error. *)
Lemma NewDataset_accepts_unknown_names :
  name_mismatch ["x"] "y" ["z"] /\
  NewDataset [[1%float]] ["x"] "y" ["z"]
  = Ok {| data := [[1%float]]; yname := "y"; varnames := ["x"]; xnames := ["z"] |} /\
  FromColumns {| c_Names := ["x"]; c_Data := [[1%float]] |} "y" ["z"]
  = {| data := [[1%float]]; yname := "y"; varnames := ["x"]; xnames := ["z"] |}.
Proof.
  split; [| done]. left. by intros [=]%list_elem_of_singleton.
Qed.

(** ** Results: standard errors and z-scores *)

Section ResultsFacts.
Context {F P : Type} {F64 : Float64 F} {M_sqrt : MathSqrt F}.
Implicit Types rslt : BaseResults F P.

Lemma diag_index (v : list F) (p : Z) (i : nat) :
  0 <= p -> len v = p * p -> len v <= max_int -> (i < Z.to_nat p)%nat ->
  index v (int_add (int_mul (Z.of_nat i) p) (Z.of_nat i)) = Ok (diag v p i).
Proof.
  intros Hp Hlen Hmax Hi. unfold int_add, int_mul, diag.
  assert (0 <= Z.of_nat i * p + Z.of_nat i < p * p) as Hidx by nia.
  assert (0 <= Z.of_nat i * p <= max_int) as Hmul by nia.
  rewrite (int_wrap_id (Z.of_nat i * p)) by (unfold max_int, min_int in *; lia).
  rewrite int_wrap_id by (unfold max_int, min_int in *; lia).
  destruct (lookup_lt_is_Some_2 v (Z.to_nat (Z.of_nat i * p + Z.of_nat i))) as [x Hx].
  { unfold len in Hlen. lia. }
  rewrite Hx. simpl. apply index_Ok. split; [lia | done].
Qed.

Lemma set_stderr_id rslt se : stderr rslt = Some se -> set_stderr rslt se = rslt.
Proof. destruct rslt; simpl. by intros ->. Qed.

Lemma StdErr_compute rslt v :
  well_formed rslt -> vcov rslt = Some v -> stderr rslt = None ->
  let se := std_errors v (NumParams (model rslt)) in
  StdErr rslt = Ok (Some se, set_stderr rslt se).
Proof.
  intros (Hp & Hps & Hv) Hvcov Hnone se. destruct (Hv v Hvcov) as [Hlen Hmax].
  unfold StdErr. rewrite Hvcov, Hnone, make_Ok by done. simpl.
  rewrite indices_enumerate, for_each_fmap.
  erewrite (for_each_fill _ (fun i _ => Sqrt (diag v (NumParams (model rslt)) i))).
  - simpl. done.
  - done.
  - intros cur i a Hi Hcur _. simpl.
    apply lookup_lt_Some in Hi. rewrite length_replicate in Hi, Hcur.
    rewrite diag_index by done. simpl.
    apply store_of_nat. lia.
Qed.

Lemma StdErr_cached rslt v se :
  vcov rslt = Some v -> stderr rslt = Some se -> StdErr rslt = Ok (Some se, rslt).
Proof. intros Hv Hse. unfold StdErr. by rewrite Hv, Hse. Qed.

Lemma StdErr_absent rslt : vcov rslt = None -> StdErr rslt = Ok (None, rslt).
Proof. intros Hv. unfold StdErr. by rewrite Hv. Qed.

Lemma ZScores_absent rslt : vcov rslt = None -> ZScores rslt = Ok (None, rslt).
Proof. intros Hv. unfold ZScores. by rewrite Hv. Qed.

(** In a valid state the standard errors are the same whether they come from
    the cache or are computed. *)
Lemma StdErr_value rslt v :
  well_formed rslt -> stderr_valid rslt -> vcov rslt = Some v ->
  let se := std_errors v (NumParams (model rslt)) in
  StdErr rslt = Ok (Some se, set_stderr rslt se).
Proof.
  intros Hwf Hval Hv se. destruct (stderr rslt) as [se' |] eqn:Hse.
  - destruct (Hval se' Hse) as [r Hr].
    rewrite (StdErr_compute (fresh rslt) v) in Hr by done.
    injection Hr as Hr _. subst se'.
    rewrite set_stderr_id by done. by eapply StdErr_cached.
  - by apply StdErr_compute.
Qed.

Lemma std_errors_length (v : list F) (p : Z) : length (std_errors v p) = Z.to_nat p.
Proof. unfold std_errors. by rewrite length_imap, length_replicate. Qed.

Lemma std_errors_lookup (v : list F) (p : Z) (i : nat) :
  (i < Z.to_nat p)%nat -> std_errors v p !! i = Some (Sqrt (diag v p i)).
Proof.
  intros Hi. unfold std_errors.
  by rewrite list_lookup_imap, lookup_replicate_2.
Qed.

Lemma ZScores_cached rslt v zs :
  vcov rslt = Some v -> zscores rslt = Some zs -> ZScores rslt = Ok (Some zs, rslt).
Proof. intros Hv Hzs. unfold ZScores. by rewrite Hv, Hzs. Qed.

Lemma ZScores_compute rslt v :
  well_formed rslt -> stderr_valid rslt -> vcov rslt = Some v -> zscores rslt = None ->
  let se := std_errors v (NumParams (model rslt)) in
  let zs := ratios (params rslt) se in
  ZScores rslt = Ok (Some zs, set_zscores (set_stderr rslt se) zs).
Proof.
  intros Hwf Hval Hv Hnone se zs. pose proof Hwf as (Hp & Hps & _).
  unfold ZScores. rewrite Hv, Hnone, make_Ok by done. simpl.
  rewrite (StdErr_value _ v); [| done | | done].
  2:{ intros se' Hse'. apply (Hval se'). by destruct rslt. }
  simpl. fold se.
  rewrite indices_enumerate, for_each_fmap.
  erewrite (for_each_fill _ (fun i s => f_div (default f_zero (params rslt !! i)) s)).
  - simpl. fold (ratios (params rslt) se). fold zs. by destruct rslt.
  - unfold se. by rewrite length_replicate, std_errors_length.
  - intros cur i s Hi Hcur _. simpl.
    pose proof (lookup_lt_Some _ _ _ Hi) as Hlt.
    unfold se in Hlt. rewrite std_errors_length in Hlt. rewrite length_replicate in Hcur.
    destruct (lookup_lt_is_Some_2 (params rslt) i) as [b Hb].
    { unfold len in Hps. lia. }
    rewrite (index_of_nat _ _ _ Hb), Hb. simpl.
    rewrite (index_of_nat _ _ _ Hi). simpl.
    apply store_of_nat. lia.
Qed.

Lemma ZScores_value rslt v :
  well_formed rslt -> caches_valid rslt -> vcov rslt = Some v ->
  let se := std_errors v (NumParams (model rslt)) in
  let zs := ratios (params rslt) se in
  exists r, ZScores rslt = Ok (Some zs, r) /\ stderr_valid r /\ zscores r = Some zs /\
            fresh r = fresh rslt.
Proof.
  intros Hwf [Hse Hzs] Hv se zs. destruct (zscores rslt) as [zs' |] eqn:Hz.
  - destruct (Hzs zs' Hz) as [r Hr].
    rewrite (ZScores_compute (fresh rslt) v) in Hr; [| done | by intros ? [=] | done | done].
    injection Hr as Hr _. subst zs'.
    exists rslt. split; [by eapply ZScores_cached | done].
  - exists (set_zscores (set_stderr rslt se) zs).
    split; [by apply ZScores_compute |].
    split; [| split; [done | by destruct rslt]].
    intros se'. simpl. intros [= <-].
    replace (fresh _) with (fresh rslt) by by destruct rslt.
    eexists. by apply (StdErr_compute (fresh rslt) v).
Qed.

(** The valid states are closed under the accessors. *)
Lemma NewBaseResults_valid model ll ps xn vc :
  caches_valid (NewBaseResults (F:=F) (P:=P) model ll ps xn vc).
Proof. split; intros ? [=]. Qed.

Lemma StdErr_preserves rslt x rslt' :
  well_formed rslt -> caches_valid rslt -> StdErr rslt = Ok (x, rslt') ->
  well_formed rslt' /\ caches_valid rslt'.
Proof.
  intros Hwf [Hse Hzs] Hcall. destruct (vcov rslt) as [v |] eqn:Hv.
  - rewrite (StdErr_value rslt v) in Hcall by done. injection Hcall as _ <-.
    split; [by destruct rslt |]. split.
    + intros se' [= <-]. eexists.
      replace (fresh _) with (fresh rslt) by by destruct rslt.
      by apply (StdErr_compute (fresh rslt) v).
    + intros zs Hz. replace (fresh _) with (fresh rslt) by by destruct rslt.
      apply Hzs. by destruct rslt.
  - rewrite StdErr_absent in Hcall by done. injection Hcall as _ <-. done.
Qed.

Lemma ZScores_preserves rslt x rslt' :
  well_formed rslt -> caches_valid rslt -> ZScores rslt = Ok (x, rslt') ->
  well_formed rslt' /\ caches_valid rslt'.
Proof.
  intros Hwf Hval Hcall. destruct (vcov rslt) as [v |] eqn:Hv.
  - destruct (ZScores_value rslt v Hwf Hval Hv) as (r & Hr & Hse & Hz & Hfresh).
    rewrite Hr in Hcall. injection Hcall as _ <-.
    assert (model r = model rslt /\ params r = params rslt /\ vcov r = vcov rslt)
      as (Hm & Hps & Hvc) by (destruct r, rslt; simpl in *; by simplify_eq).
    split.
    + unfold well_formed. rewrite Hm, Hps, Hvc. apply Hwf.
    + split; [done |]. intros zs'. rewrite Hz. intros [= <-]. rewrite Hfresh.
      eexists. by apply (ZScores_compute (fresh rslt) v); [| intros ? [=] | |].
  - rewrite ZScores_absent in Hcall by done. injection Hcall as _ <-. done.
Qed.

(** What [StdErr] returns in a valid state, entry by entry. *)
Lemma StdErr_entries rslt v :
  well_formed rslt -> stderr_valid rslt -> vcov rslt = Some v ->
  let p := NumParams (model rslt) in
  exists se,
    StdErr rslt = Ok (Some se, set_stderr rslt se) /\ len se = p /\
    forall i, 0 <= i < p ->
      exists x, index v (i * p + i) = Ok x /\ index se i = Ok (Sqrt x).
Proof.
  intros Hwf Hse Hv p. pose proof Hwf as (Hp & _ & Hlen).
  destruct (Hlen v Hv) as [Hlenv Hmax].
  exists (std_errors v p).
  split; [by apply StdErr_value |].
  split; [unfold len; rewrite std_errors_length; lia |].
  intros i Hi. exists (diag v p (Z.to_nat i)).
  assert (Z.to_nat i < Z.to_nat p)%nat as Hlt by lia.
  pose proof (diag_index v p (Z.to_nat i) Hp Hlenv Hmax Hlt) as Hd.
  rewrite Z2Nat.id in Hd by lia.
  unfold int_add, int_mul in Hd.
  rewrite (int_wrap_id (i * p)) in Hd by (unfold max_int, min_int in *; nia).
  rewrite int_wrap_id in Hd by (unfold max_int, min_int in *; nia).
  split; [done |].
  rewrite <- (Z2Nat.id i) at 1 by lia.
  apply index_of_nat. by apply std_errors_lookup.
Qed.

(** C8: for every results value whose covariance matrix is present, entry
    [i] of [StdErr()] is [math.Sqrt] of [vcov[i*p+i]], [p] being the number
    of parameters of the model; the first call computes the vector and
    stores it in the receiver, and a call on a receiver that holds it
    returns it as it is. *)
Theorem StdErr_sqrt_diag rslt v :
  well_formed rslt -> caches_valid rslt -> vcov rslt = Some v ->
  let p := NumParams (model rslt) in
  exists se rslt',
    StdErr rslt = Ok (Some se, rslt') /\ len se = p /\
    (forall i, 0 <= i < p ->
       exists x, index v (i * p + i) = Ok x /\ index se i = Ok (Sqrt x)) /\
    (stderr rslt = None -> rslt' = set_stderr rslt se) /\
    stderr rslt' = Some se /\
    StdErr rslt' = Ok (Some se, rslt').
Proof.
  intros Hwf [Hse _] Hv p.
  destruct (StdErr_entries rslt v Hwf Hse Hv) as (se & Hcall & Hlen & Hdiag).
  exists se, (set_stderr rslt se).
  repeat split; try done. by eapply StdErr_cached.
Qed.

(** C7: for every results value whose covariance matrix is present, entry
    [i] of [ZScores()] is entry [i] of [Params()] divided by entry [i] of
    [StdErr()], whatever was called before: [ZScores] calls [StdErr] for the
    standard errors it needs. *)
Theorem ZScores_ratio rslt v :
  well_formed rslt -> caches_valid rslt -> vcov rslt = Some v ->
  let p := NumParams (model rslt) in
  exists se zs r1 r2 r3,
    StdErr rslt = Ok (Some se, r1) /\
    ZScores rslt = Ok (Some zs, r2) /\
    StdErr r2 = Ok (Some se, r3) /\
    len zs = p /\
    forall i, 0 <= i < p ->
      exists b s, index (Params rslt) i = Ok b /\ index se i = Ok s /\
                  index zs i = Ok (f_div b s).
Proof.
  intros Hwf Hval Hv p. pose proof Hwf as (Hp & Hps & _).
  destruct (ZScores_value rslt v Hwf Hval Hv) as (r2 & Hz & Hse2 & Hzs2 & Hfresh).
  assert (model r2 = model rslt /\ params r2 = params rslt /\ vcov r2 = vcov rslt)
    as (Hm & Hps2 & Hvc) by (destruct r2, rslt; simpl in *; by simplify_eq).
  assert (well_formed r2) as Hwf2.
  { unfold well_formed. rewrite Hm, Hps2, Hvc. apply Hwf. }
  exists (std_errors v p), (ratios (params rslt) (std_errors v p)),
         (set_stderr rslt (std_errors v p)), r2, (set_stderr r2 (std_errors v p)).
  split; [apply StdErr_value; [done | apply Hval | done] |].
  split; [done |].
  split.
  { rewrite (StdErr_value r2 v) by (done || congruence). by rewrite Hm. }
  split; [unfold len, ratios; rewrite length_imap, std_errors_length; lia |].
  intros i Hi.
  destruct (lookup_lt_is_Some_2 (params rslt) (Z.to_nat i)) as [b Hb].
  { unfold len in Hps. lia. }
  exists b, (Sqrt (diag v p (Z.to_nat i))).
  assert (std_errors v p !! Z.to_nat i = Some (Sqrt (diag v p (Z.to_nat i)))) as Hs
    by (apply std_errors_lookup; lia).
  split; [apply index_Ok; split; [lia | done] |].
  split; [apply index_Ok; split; [lia | done] |].
  apply index_Ok. split; [lia |].
  unfold ratios. by rewrite list_lookup_imap, Hs, Hb.
Qed.
End ResultsFacts.

Lemma demo_well_formed : well_formed demo_results.
Proof.
  unfold well_formed. simpl. split; [lia |]. split; [done |].
  intros v [= <-]. by vm_compute.
Qed.

Lemma noisy_well_formed : well_formed noisy_results.
Proof.
  unfold well_formed. simpl. split; [lia |]. split; [done |].
  intros v [= <-]. by vm_compute.
Qed.

(** C8 at [demo_results]: the standard error of the second coefficient is the
    square root of the covariance entry at index 1 * 2 + 1. *)
Lemma StdErr_sqrt_diag_demo :
  exists se rslt',
    StdErr demo_results = Ok (Some se, rslt') /\
    index demo_vcov (1 * 2 + 1) = Ok 9%float /\ index se 1 = Ok 3%float /\
    StdErr rslt' = Ok (Some se, rslt').
Proof.
  destruct (StdErr_sqrt_diag demo_results demo_vcov demo_well_formed
              (NewBaseResults_valid _ _ _ _ _) eq_refl)
    as (se & r & Hcall & _ & Hdiag & _ & _ & Hagain).
  exists se, r. split; [exact Hcall |]. split; [reflexivity |].
  split; [| exact Hagain].
  destruct (Hdiag 1) as (x & Hx & Hse); [simpl; lia |].
  vm_compute in Hx. injection Hx as <-. exact Hse.
Defined.

(** C7 at [demo_results], with [ZScores] the first accessor called: the
    z-score of the second coefficient is 6 / 3. *)
Lemma ZScores_ratio_demo :
  exists zs rslt',
    ZScores demo_results = Ok (Some zs, rslt') /\ index zs 1 = Ok 2%float.
Proof.
  destruct (ZScores_ratio demo_results demo_vcov demo_well_formed
              (NewBaseResults_valid _ _ _ _ _) eq_refl)
    as (se & zs & r1 & r2 & r3 & Hse & Hzs & _ & _ & Hratio).
  exists zs, r2. split; [exact Hzs |].
  destruct (Hratio 1) as (b & s & Hb & Hs & Hz); [simpl; lia |].
  vm_compute in Hb. injection Hb as <-.
  vm_compute in Hse. injection Hse as <- _.
  vm_compute in Hs. injection Hs as <-. exact Hz.
Defined.

(** ** Results: p-values *)

Section PValuesFacts.
Context {F P : Type} {F64 : Float64 F}.
Context {M_sqrt : MathSqrt F} {M_abs : MathAbs F} {M_erfc : MathErfc F}.
Implicit Types rslt : BaseResults F P.

Lemma PValues_absent rslt : vcov rslt = None -> PValues rslt = Ok (None, rslt).
Proof. intros Hv. unfold PValues. by rewrite Hv. Qed.

Lemma PValues_cached rslt v pv :
  vcov rslt = Some v -> pvalues rslt = Some pv -> PValues rslt = Ok (Some pv, rslt).
Proof. intros Hv Hpv. unfold PValues. by rewrite Hv, Hpv. Qed.

(** [PValues] leaves the other caches alone. *)
Lemma PValues_preserves rslt x rslt' :
  well_formed rslt -> caches_valid rslt -> PValues rslt = Ok (x, rslt') ->
  well_formed rslt' /\ caches_valid rslt'.
Proof.
  intros Hwf Hval. unfold PValues.
  destruct (vcov rslt); [| by intros [= _ <-]].
  destruct (pvalues rslt); [by intros [= _ <-] |].
  intros (pv0 & _ & (pv & _ & [= _ <-])%bind_Ok)%bind_Ok.
  by destruct rslt.
Qed.

(** X1: once the z-scores are in the receiver, the p-values are computed from
    them: entry [i] is [2 * normcdf (-|z|)] for the z-score [z] at [i]. *)
Lemma PValues_after_ZScores rslt v zs :
  vcov rslt = Some v -> zscores rslt = Some zs -> pvalues rslt = None ->
  len zs = NumParams (model rslt) ->
  let pv := (fun z => f_mul f_two (normcdf (f_neg (Abs z)))) <$> zs in
  PValues rslt = Ok (Some pv, set_pvalues rslt pv).
Proof.
  intros Hv Hzs Hnone Hlen pv. unfold PValues.
  rewrite Hv, Hnone, Hzs, make_Ok by (rewrite <- Hlen; apply len_nonneg). simpl.
  erewrite (for_each_fill _ (fun _ z => f_mul f_two (normcdf (f_neg (Abs z))))).
  - assert (imap (fun (_ : nat) z => f_mul f_two (normcdf (f_neg (Abs z)))) zs = pv)
      as -> by apply (imap_const (fun z => f_mul f_two (normcdf (f_neg (Abs z)))) zs).
    done.
  - rewrite length_replicate. unfold len in Hlen. lia.
  - intros cur i z Hi Hcur _. apply store_of_nat.
    apply lookup_lt_Some in Hi. rewrite Hcur, length_replicate.
    unfold len in Hlen. lia.
Qed.

(** C1, at the failing call: on a results value with a covariance matrix
    whose z-scores are not yet in the receiver, [PValues] computes no
    z-score: it returns the zeros that [make] put there, whatever the
    z-scores are, and keeps them as the p-values from then on. *)
Theorem PValues_before_ZScores rslt v :
  vcov rslt = Some v -> zscores rslt = None -> pvalues rslt = None ->
  0 <= NumParams (model rslt) ->
  let pv := replicate (Z.to_nat (NumParams (model rslt))) f_zero in
  PValues rslt = Ok (Some pv, set_pvalues rslt pv) /\
  zscores (set_pvalues rslt pv) = None /\
  forall r : BaseResults F P,
    vcov r = Some v -> pvalues r = Some pv -> PValues r = Ok (Some pv, r).
Proof.
  intros Hv Hzs Hnone Hp pv. split; [| split].
  - unfold PValues. rewrite Hv, Hnone, Hzs, make_Ok by done. done.
  - done.
  - intros r Hrv Hrp. by eapply PValues_cached.
Qed.

(** X3: the states with valid caches are closed under the three accessors: each
    call that returns leaves a value that satisfies the data model and whose
    caches are valid. *)
Theorem accessors_keep_caches_valid rslt :
  well_formed rslt -> caches_valid rslt ->
  (forall x r, StdErr rslt = Ok (x, r) -> well_formed r /\ caches_valid r) /\
  (forall x r, ZScores rslt = Ok (x, r) -> well_formed r /\ caches_valid r) /\
  (forall x r, PValues rslt = Ok (x, r) -> well_formed r /\ caches_valid r).
Proof.
  intros Hwf Hval. split; [| split]; intros x r Hcall.
  - by eapply StdErr_preserves.
  - by eapply ZScores_preserves.
  - by eapply PValues_preserves.
Qed.
End PValuesFacts.

(** C1 at [sym_results]: [PValues], called first, returns 0 for a coefficient
    whose z-score is 0. *)
Lemma PValues_before_ZScores_demo :
  PValues sym_results = Ok (Some [Lit 0], set_pvalues sym_results [Lit 0]).
Proof.
  destruct (PValues_before_ZScores sym_results [Lit 1] eq_refl eq_refl eq_refl)
    as [Hcall _]; [simpl; lia |].
  exact Hcall.
Defined.

(** The two orders of the calls on the same fit: after [ZScores], [PValues]
    evaluates [2 * normcdf (-|z|)] at the z-score; before it, it does not. *)
Example PValues_order_matters :
  (exists r, PValues sym_results = Ok (Some [Lit 0], r)) /\
  (exists r1 r2,
     ZScores sym_results = Ok (Some [Div (Lit 0) (SqrtOf (Lit 1))], r1) /\
     PValues r1
     = Ok (Some [f_mul f_two (normcdf (f_neg (Abs (Div (Lit 0) (SqrtOf (Lit 1))))))], r2)).
Proof. split; repeat eexists; reflexivity. Qed.

(** The same over IEEE floats, for any [math.Erfc] with [Erfc(0) = 1]: the
    z-score is 0, for which [2 * normcdf (-|z|)] is 1, and [PValues], called
    first, returns 0. *)
Example PValues_zero_zscore_ieee (erfc : float -> float) :
  erfc 0%float = 1%float ->
  (exists r, ZScores unit_results = Ok (Some [0%float], r)) /\
  f_mul f_two (normcdf (M_erfc := erfc) (f_neg (Abs 0%float))) = 1%float /\
  (exists r, PValues (M_erfc := erfc) unit_results = Ok (Some [0%float], r)).
Proof.
  intros Herfc. split; [by eexists |]. split; [| by eexists].
  unfold normcdf, Erfc.
  change (f_div (f_neg (f_neg (Abs 0%float))) (Sqrt f_two)) with 0%float.
  rewrite Herfc. reflexivity.
Qed.

(** [PValues] after [ZScores] at [sym_results]. *)
Lemma PValues_after_ZScores_demo :
  exists r1,
    ZScores sym_results = Ok (Some [Div (Lit 0) (SqrtOf (Lit 1))], r1) /\
    PValues r1
    = Ok (Some [Mul (Lit 2) (normcdf (Neg (AbsOf (Div (Lit 0) (SqrtOf (Lit 1))))))],
          set_pvalues r1
            [Mul (Lit 2) (normcdf (Neg (AbsOf (Div (Lit 0) (SqrtOf (Lit 1))))))]).
Proof.
  exists (set_zscores (set_stderr sym_results [SqrtOf (Lit 1)])
            [Div (Lit 0) (SqrtOf (Lit 1))]).
  split; [reflexivity |].
  exact (PValues_after_ZScores
           (set_zscores (set_stderr sym_results [SqrtOf (Lit 1)])
              [Div (Lit 0) (SqrtOf (Lit 1))])
           [Lit 1] [Div (Lit 0) (SqrtOf (Lit 1))] eq_refl eq_refl eq_refl eq_refl).
Defined.

Lemma sym_well_formed : well_formed sym_results.
Proof.
  unfold well_formed. simpl. split; [lia |]. split; [done |].
  intros v [= <-]. by vm_compute.
Qed.

(** The state after [ZScores] at [sym_results]. *)
Lemma accessors_keep_caches_valid_demo :
  exists x r, ZScores sym_results = Ok (x, r) /\ well_formed r /\ caches_valid r.
Proof.
  destruct (ZScores sym_results) as [[x r] | msg] eqn:Hz; [| by vm_compute in Hz].
  exists x, r. split; [reflexivity |].
  destruct (accessors_keep_caches_valid sym_results sym_well_formed
              (NewBaseResults_valid _ _ _ _ _)) as (_ & Hkeep & _).
  by apply (Hkeep x).
Defined.

(** ** Results: IEEE arithmetic *)

Lemma sqrt_negative_is_nan (x : float) :
  PrimFloat.ltb x 0 = true -> PrimFloat.is_nan (PrimFloat.sqrt x) = true.
Proof.
  intros Hlt. rewrite FloatAxioms.ltb_spec in Hlt.
  unfold PrimFloat.is_nan. rewrite FloatAxioms.eqb_spec, FloatAxioms.sqrt_spec.
  change (Prim2SF 0) with (S754_zero false) in Hlt.
  destruct (Prim2SF x) as [s | s | | s m e]; try destruct s;
    simpl in *; try discriminate; reflexivity.
Qed.

Section IEEE.
Context {P : Type}.
Implicit Types rslt : BaseResults float P.

(** C3, as the code has it: for every results value over IEEE floats whose
    covariance matrix is present, [StdErr] returns a vector and does not
    panic; where the diagonal entry is negative, the standard error is NaN. *)
Theorem StdErr_negative_diag_nan rslt v :
  well_formed rslt -> caches_valid rslt -> vcov rslt = Some v ->
  let p := NumParams (model rslt) in
  exists se rslt',
    StdErr rslt = Ok (Some se, rslt') /\
    forall i x, 0 <= i < p -> index v (i * p + i) = Ok x ->
      PrimFloat.ltb x 0 = true ->
      exists y, index se i = Ok y /\ PrimFloat.is_nan y = true.
Proof.
  intros Hwf Hval Hv p.
  destruct (StdErr_entries rslt v Hwf (proj1 Hval) Hv) as (se & Hcall & _ & Hdiag).
  exists se, (set_stderr rslt se). split; [done |].
  intros i x Hi Hx Hneg. destruct (Hdiag i Hi) as (x' & Hx' & Hse).
  fold p in Hx'. rewrite Hx in Hx'. injection Hx' as <-.
  exists (Sqrt x). split; [done |]. by apply sqrt_negative_is_nan.
Qed.
End IEEE.

(** C3 at [noisy_results]: the covariance entry at index 1 * 2 + 1 is -1, and
    the standard error of the second coefficient is NaN. *)
Lemma StdErr_negative_diag_nan_demo :
  exists se rslt',
    StdErr noisy_results = Ok (Some se, rslt') /\
    exists y, index se 1 = Ok y /\ PrimFloat.is_nan y = true.
Proof.
  destruct (StdErr_negative_diag_nan noisy_results noisy_vcov noisy_well_formed
              (NewBaseResults_valid _ _ _ _ _) eq_refl)
    as (se & r & Hcall & Hnan).
  exists se, r. split; [exact Hcall |].
  apply (Hnan 1 (-1)%float); [simpl; lia | reflexivity | reflexivity].
Defined.

(** C3, refuted as stated: with a negative diagonal entry in the covariance
    matrix, [StdErr] does not return nil; it returns a vector with a NaN. *)
Lemma StdErr_negative_diag_present :
  index noisy_vcov (1 * 2 + 1) = Ok (-1)%float /\
  PrimFloat.ltb (-1) 0 = true /\
  StdErr noisy_results
  = Ok (Some [2%float; PrimFloat.nan], set_stderr noisy_results [2%float; PrimFloat.nan]).
Proof. repeat split. Qed.

(** ** The covariance matrix *)

Section VcovFacts.
Context {F P E : Type} {F64 : Float64 F} {Inv : MatInverse F E}.

Lemma GetVcov_unfold (model : RegFitter F P) (params : P) :
  NumParams model * NumParams model <= max_int ->
  GetVcov model params =
    (r ← Inverse (NumParams model) (ExpectedHessian model params);
     match r with
     | inl err => Ok (None, Some err, "Can't invert Hessian" +:+ newline)
     | inr hessi => Ok (Some (Scale (f_neg f_one) hessi), None, "")
     end).
Proof.
  intros Hn. unfold GetVcov, ExpectedHessian.
  assert (0 <= int_mul (NumParams model) (NumParams model)) as Hpos.
  { unfold int_mul. rewrite int_wrap_id; unfold min_int; nia. }
  rewrite make_Ok by done. done.
Qed.

Context {M_sqrt : MathSqrt F} {M_abs : MathAbs F} {M_erfc : MathErfc F}.

(** C4: when [Inverse] reports the expected Hessian at the parameter as not
    invertible, [GetVcov] returns that error and a nil covariance matrix;
    and on every results value built with a nil covariance matrix,
    [StdErr], [ZScores] and [PValues] return nil, not a vector of zeros, and
    change nothing, while [Params] and [LogLike] return the estimates and
    the log-likelihood the value was built with. *)
Theorem singular_Hessian_no_inference (model : RegFitter F P) (params : P) (err : E) :
  NumParams model * NumParams model <= max_int ->
  Inverse (NumParams model) (ExpectedHessian model params) = Ok (inl err) ->
  GetVcov model params = Ok (None, Some err, "Can't invert Hessian" +:+ newline) /\
  forall (m : RegFitter F P) (ll : F) (ps : list F) (xn : list string),
    let rslt := NewBaseResults m ll ps xn None in
    StdErr rslt = Ok (None, rslt) /\ ZScores rslt = Ok (None, rslt) /\
    PValues rslt = Ok (None, rslt) /\
    Params rslt = ps /\ ResultsLogLike rslt = ll.
Proof.
  intros Hn Hinv. split.
  - rewrite GetVcov_unfold by done. by rewrite Hinv.
  - intros m ll ps xn rslt. repeat split.
Qed.
End VcovFacts.

Section ExactArithmetic.
Context {F : Type} {F64 : Float64 F}.
Hypothesis F_ring :
  ring_theory f_zero f_one f_add f_mul (fun a b => f_add a (f_neg b)) f_neg eq.

Add Ring F_ring_inst : F_ring.

Lemma entry_Scale (n : nat) (c : F) (a : list F) (i j : nat) :
  entry n (Scale c a) i j = f_mul c (entry n a i j).
Proof.
  unfold entry, Scale. rewrite list_lookup_fmap.
  destruct (a !! (i * n + j)%nat); simpl; [done | ring].
Qed.

Lemma dot_Scale (n : nat) (c : F) (a b : list F) (i j : nat) :
  dot n (Scale c a) b i j = f_mul c (dot n a b i j).
Proof.
  unfold dot. induction (seq 0 n) as [| k ks IH]; simpl.
  - ring.
  - rewrite IH, entry_Scale. ring.
Qed.

Lemma fmap_bind_list {A B C : Type} (g : B -> C) (f : A -> list B) (l : list A) :
  g <$> (l ≫= f) = l ≫= (fun x => g <$> f x).
Proof.
  induction l as [| x l IH]; [done |].
  by rewrite !bind_cons, fmap_app, IH.
Qed.

Lemma matmul_Scale (n : nat) (c : F) (a b : list F) :
  matmul n (Scale c a) b = Scale c (matmul n a b).
Proof.
  unfold matmul. unfold Scale at 2. rewrite fmap_bind_list.
  apply list_bind_ext; [| done]. intros i.
  rewrite fmap_bind_list. apply list_bind_ext; [| done]. intros j.
  simpl. by rewrite dot_Scale.
Qed.

Lemma Scale_minus_one (a : list F) : Scale (f_neg f_one) a = mat_neg a.
Proof.
  unfold Scale, mat_neg. apply list_fmap_ext. intros _ x _. ring.
Qed.

End ExactArithmetic.

Section VcovInverse.
Context {F P E : Type} {F64 : Float64 F} {Inv : MatInverse F E}.

End VcovInverse.

(** C4 at [flat_model], whose expected Hessian is all zeros. *)
Lemma singular_Hessian_no_inference_demo :
  ExpectedHessian flat_model tt = [Lit 0; Lit 0; Lit 0; Lit 0] /\
  GetVcov flat_model tt
  = Ok (None, Some "matrix singular or near-singular", "Can't invert Hessian" +:+ newline) /\
  let rslt := NewBaseResults flat_model (Lit 0) [Lit 0; Lit 0] ["x1"; "x2"] None in
  StdErr rslt = Ok (None, rslt) /\ ZScores rslt = Ok (None, rslt) /\
  PValues rslt = Ok (None, rslt).
Proof.
  split; [reflexivity |].
  destruct (singular_Hessian_no_inference flat_model tt "matrix singular or near-singular")
    as [Hcov Hrslt]; [by vm_compute | by vm_compute |].
  split; [exact Hcov |].
  destruct (Hrslt flat_model (Lit 0) [Lit 0; Lit 0] ["x1"; "x2"]) as (? & ? & ? & _).
  by repeat split.
Defined.

(** Equality of lists of rationals in canonical form, entry by entry. *)
Ltac qc_entries :=
  vm_compute; repeat (apply (f_equal2 cons); [apply Qc_is_canon; reflexivity |]);
  reflexivity.


(** IEEE arithmetic is not a ring: [0 + (-0)] is [0], not [-0]. *)
Lemma ieee_not_a_ring :
  ~ ring_theory (R := float) f_zero f_one f_add f_mul
      (fun a b => f_add a (f_neg b)) f_neg eq.
Proof.
  intros Hring. pose proof (Radd_0_l Hring (-0)%float) as Hzero.
  apply (f_equal Prim2SF) in Hzero. by vm_compute in Hzero.
Qed.



(** ** Fitted values *)

Section FittedValuesFacts.
Context {F P : Type} {F64 : Float64 F}.
Implicit Types rslt : BaseResults F P.

(** C9: [FittedValues] called with a dataset that is not nil and whose
    number of columns differs from that of the training dataset panics at
    once with the message that says so, and returns no vector; called with
    nil it does what it does when called with the training dataset. *)
Theorem FittedValues_column_count rslt (da : list (list F)) :
  len da <> len (Dataset (model rslt)) ->
  FittedValues rslt (Some da)
  = Panic ("Data has incorrect number of columns, " +:+ pretty (len da) +:+ " != "
           +:+ pretty (len (Dataset (model rslt))) +:+ newline) /\
  FittedValues rslt None = FittedValues rslt (Some (Dataset (model rslt))).
Proof.
  intros Hne. split; [| done].
  unfold FittedValues. by destruct (Z.eqb_spec (len da) (len (Dataset (model rslt)))).
Qed.

(** C10: [FittedValues] checks the number of columns only.  When a dataset
    with the right number of columns has, at a position listed in [Xpos()],
    a column longer than [NumObs()], the call panics: the loop over that
    column indexes the output, of length [NumObs()], out of range.  So the
    call returns only if every such column has at most [NumObs()]
    entries. *)
Theorem FittedValues_long_column_panics rslt (da : list (list F)) (k : nat) (j : Z)
    (z : list F) :
  len da = len (Dataset (model rslt)) ->
  Xpos (model rslt) !! k = Some j ->
  index da j = Ok z ->
  NumObs (model rslt) < len z ->
  panics (FittedValues rslt (Some da)).
Proof.
  intros Hlen Hk Hz Hlong. unfold FittedValues.
  rewrite Hlen, Z.eqb_refl. simpl.
  unfold make. destruct (Z.ltb_spec (NumObs (model rslt)) 0) as [Hneg | Hn].
  { by eexists. }
  simpl. set (n := NumObs (model rslt)) in *.
  apply (for_each_panics (fun fv : list F => len fv = n) _ _ _ (Z.of_nat k, j)).
  - unfold len. rewrite length_replicate. lia.
  - intros fv [k' j'] fv' Hfv.
    intros (z' & _ & Hin)%bind_Ok. revert Hin.
    apply (for_each_invariant (fun fv : list F => len fv = n)); [done |].
    intros s i s' Hs _ (a & _ & (b & _ & (c & _ & Hst)%bind_Ok)%bind_Ok)%bind_Ok.
    apply store_length in Hst. unfold len in *. congruence.
  - apply list_elem_of_lookup. exists k. by apply enumerate_lookup.
  - intros fv Hfv. simpl. rewrite Hz. simpl.
    apply (for_each_panics (fun fv : list F => len fv = n) _ _ _ n).
    + done.
    + intros s i s' Hs (a & _ & (b & _ & (c & _ & Hst)%bind_Ok)%bind_Ok)%bind_Ok.
      apply store_length in Hst. unfold len in *. congruence.
    + apply elem_of_indices. lia.
    + intros s Hs. apply panics_bind, index_panics. lia.
Qed.

(** X2: under the preconditions that the code leaves unchecked,
    [FittedValues] returns a vector of [NumObs()] entries. *)
Lemma FittedValues_total rslt (da : list (list F)) :
  len da = len (Dataset (model rslt)) ->
  0 <= NumObs (model rslt) ->
  len (Xpos (model rslt)) <= len (params rslt) ->
  (forall j, j ∈ Xpos (model rslt) ->
     exists z, index da j = Ok z /\ len z <= NumObs (model rslt)) ->
  exists fv, FittedValues rslt (Some da) = Ok fv /\ len fv = NumObs (model rslt).
Proof.
  intros Hlen Hn Hps Hcols. unfold FittedValues.
  rewrite Hlen, Z.eqb_refl, make_Ok by done. simpl.
  set (n := NumObs (model rslt)) in *.
  apply (for_each_Ok (fun fv : list F => len fv = n)).
  { unfold len. rewrite length_replicate. lia. }
  intros fv [k j] Hfv Hin.
  apply list_elem_of_lookup in Hin as [i Hi].
  apply lookup_zip_Some in Hi as [Hik Hij].
  pose proof (lookup_lt_Some _ _ _ Hij) as Hlt.
  rewrite indices_lookup in Hik by done. injection Hik as <-.
  destruct (Hcols j) as (z & Hz & Hzn); [by eapply list_elem_of_lookup_2 |].
  rewrite Hz. simpl.
  apply (for_each_Ok (fun fv : list F => len fv = n)); [done |].
  intros s x Hs Hx.
  apply list_elem_of_lookup in Hx as [m Hm].
  pose proof (lookup_lt_Some _ _ _ Hm) as Hmlt.
  unfold indices in Hmlt. rewrite length_fmap, length_seq in Hmlt.
  rewrite indices_lookup in Hm by done. injection Hm as <-.
  destruct (lookup_lt_is_Some_2 s m) as [a Ha]; [unfold len in *; lia |].
  destruct (lookup_lt_is_Some_2 (params rslt) i) as [b Hb]; [unfold len in *; lia |].
  destruct (lookup_lt_is_Some_2 z m) as [c Hc]; [done |].
  rewrite (index_of_nat _ _ _ Ha), (index_of_nat _ _ _ Hb), (index_of_nat _ _ _ Hc). simpl.
  rewrite store_of_nat by (unfold len in *; lia).
  eexists. split; [done |]. unfold len in *. by rewrite length_insert.
Qed.
End FittedValuesFacts.

(** C9 at [demo_results]: two columns where the training data has three. *)
Lemma FittedValues_column_count_demo :
  panics (FittedValues demo_results (Some [[1; 2]; [3; 4]]%float)) /\
  FittedValues demo_results None = Ok [21; 30]%float /\
  FittedValues demo_results (Some (Dataset demo_model)) = Ok [21; 30]%float.
Proof.
  destruct (FittedValues_column_count demo_results [[1; 2]; [3; 4]]%float)
    as [Hpanic Hnil]; [by vm_compute |].
  split; [eexists; exact Hpanic |].
  split; [rewrite Hnil |]; reflexivity.
Defined.

(** C10 at [demo_results]: three columns, the second of three entries where
    the model has two observations. *)
Lemma FittedValues_long_column_panics_demo :
  panics (FittedValues demo_results (Some [[1; 2]; [3; 4; 5]; [6; 7]]%float)).
Proof.
  apply (FittedValues_long_column_panics demo_results _ 1%nat 1 [3; 4; 5]%float);
    [reflexivity | reflexivity | reflexivity | by vm_compute].
Defined.

(** [FittedValues] at [demo_results] with a dataset that meets the
    preconditions. *)
Lemma FittedValues_total_demo :
  exists fv, FittedValues demo_results (Some (Dataset demo_model)) = Ok fv /\ len fv = 2.
Proof.
  apply (FittedValues_total demo_results (Dataset demo_model));
    [reflexivity | by vm_compute | by vm_compute |].
  intros j [-> | [-> | []%elem_of_nil]%elem_of_cons]%elem_of_cons;
    eexists; (split; [reflexivity | by vm_compute]).
Defined.

(** ** The summary table *)

Lemma strlen_nonneg (s : string) : 0 <= strlen s.
Proof. unfold strlen. lia. Qed.

Lemma strlen_append (s1 s2 : string) : strlen (s1 +:+ s2) = strlen s1 + strlen s2.
Proof.
  unfold strlen. induction s1 as [| a s1 IH].
  - done.
  - change (String.String a s1 +:+ s2) with (String.String a (s1 +:+ s2)).
    cbn [String.length]. lia.
Qed.

Lemma strlen_repeat_space (n : nat) : strlen (repeat_string " " n) = Z.of_nat n.
Proof.
  induction n as [| n IH]; [done |].
  cbn [repeat_string]. rewrite strlen_append, IH. unfold strlen. simpl. lia.
Qed.

Lemma widest_ge (u : list string) (x : string) : x ∈ u -> strlen x <= widest u.
Proof.
  unfold widest. induction u as [| y u IH]; [by intros ?%elem_of_nil |].
  intros [-> | Hin]%elem_of_cons; cbn [foldr fmap list_fmap];
    [| specialize (IH Hin)]; lia.
Qed.

Lemma widest_nonneg (u : list string) : 0 <= widest u.
Proof. unfold widest. induction u; cbn [foldr fmap list_fmap]; lia. Qed.

Lemma topWidth_max (u : list string) (w : Z) :
  0 <= w -> topWidth u w = Z.max w (widest u).
Proof.
  unfold topWidth, widest. revert w.
  induction u as [| x u IH]; intros w Hw; cbn [fold_left foldr fmap list_fmap].
  - lia.
  - pose proof (strlen_nonneg x).
    destruct (Z.gtb_spec (strlen x) w); rewrite IH by lia; lia.
Qed.

Lemma sum_fold_int_add (wx : list Z) (acc : Z) :
  0 <= acc -> Forall (fun w => 0 <= w) wx -> acc + sumZ wx <= max_int ->
  fold_left int_add wx acc = acc + sumZ wx.
Proof.
  intros Hacc Hpos. revert acc Hacc.
  induction Hpos as [| w wx Hw Hpos IH]; intros acc Hacc Hsum; simpl in *.
  - lia.
  - assert (0 <= sumZ wx).
    { clear -Hpos. induction Hpos; simpl; lia. }
    unfold int_add at 2. rewrite int_wrap_id by (unfold min_int; lia).
    rewrite IH; lia.
Qed.

Section SummaryFacts.
Context {Col : Type} {fmt : FmtPkg}.
Implicit Types s : SummaryTable Col.

Lemma cleanTop_Ok s s1 :
  widest (Top s) <= max_int ->
  cleanTop s = Ok s1 ->
  s1 = set_Top s (padded (widest (Top s)) <$> Top s) /\ Top s <> [].
Proof.
  intros Hmax. unfold cleanTop.
  intros (x0 & Hx0 & Hrest)%bind_Ok.
  apply index_Ok in Hx0 as [_ Hx0]. simpl in Hx0.
  assert (x0 ∈ Top s) as Hin by by eapply list_elem_of_lookup_2.
  assert (Top s <> []) as Hne by (intros Hnil; rewrite Hnil in Hx0; done).
  split; [| done].
  rewrite topWidth_max in Hrest by apply strlen_nonneg.
  rewrite Z.max_r in Hrest by by apply widest_ge.
  set (w := widest (Top s)) in *.
  rewrite (for_each_fill _ (fun _ x => padded w x) (Top s) (Top s)) in Hrest.
  - simpl in Hrest. injection Hrest as <-. f_equal. apply imap_const.
  - done.
  - intros cur i x Hi Hcur Hdrop. simpl. unfold padded.
    assert (cur !! i = Some x) as Hcuri.
    { rewrite <- (Nat.add_0_r i), <- lookup_drop, Hdrop, lookup_drop, Nat.add_0_r. done. }
    destruct (Z.ltb_spec (strlen x) w) as [Hlt | Hge].
    + unfold Repeat, int_sub.
      pose proof (strlen_nonneg x).
      rewrite int_wrap_id by (unfold min_int, max_int in *; lia).
      destruct (Z.ltb_spec (w - strlen x) 0); [lia |].
      destruct (Z.gtb_spec (strlen " " * (w - strlen x)) max_int) as [Hov | _].
      { exfalso. change (strlen " ") with 1 in Hov. lia. }
      simpl. apply store_of_nat. rewrite Hcur. by eapply lookup_lt_Some.
    + by rewrite list_insert_id.
Qed.

Lemma padded_strlen (w : Z) (x : string) : strlen x <= w -> strlen (padded w x) = w.
Proof.
  intros Hle. unfold padded. destruct (Z.ltb_spec (strlen x) w); [| lia].
  rewrite strlen_append, strlen_repeat_space. lia.
Qed.

(** The loop of [colWidths], from column [k] on. *)
Lemma colWidths_from s (l : list Col) (k : nat) (tab tab' : list (list string))
    (wx wx' : list Z) :
  for_each (fun '(tab, wx) '(j, c) =>
      f ← index (ColFmt s) j;
      name ← index (ColNames s) j;
      let u := f c name in
      let tab := tab ++ [u] in
      u0 ← index u 0;
      if strlen u0 >? strlen name then Ok (tab, wx ++ [strlen u0])
      else Ok (tab, wx ++ [strlen name]))
    (zip (Z.of_nat <$> seq k (length l)) l) (tab, wx) = Ok (tab', wx') ->
  exists us ws,
    tab' = tab ++ us /\ wx' = wx ++ ws /\
    length us = length l /\ length ws = length l /\
    forall i c, l !! i = Some c ->
      exists f name u0 rest,
        ColFmt s !! (k + i)%nat = Some f /\ ColNames s !! (k + i)%nat = Some name /\
        f c name = u0 :: rest /\ us !! i = Some (f c name) /\
        ws !! i = Some (Z.max (strlen name) (strlen u0)).
Proof.
  revert k tab wx. induction l as [| c l IH]; intros k tab wx.
  - simpl. intros [= <- <-]. exists [], []. rewrite !app_nil_r.
    repeat split; try done.
  - cbn [length seq fmap list_fmap zip zip_with for_each].
    intros (st & Hbody & Hrest)%bind_Ok.
    apply bind_Ok in Hbody as (f & Hf & Hbody).
    apply bind_Ok in Hbody as (name & Hname & Hbody).
    cbn zeta in Hbody.
    apply bind_Ok in Hbody as (u0 & Hu0 & Hbody).
    apply index_Ok in Hf as [_ Hf]. apply index_Ok in Hname as [_ Hname].
    apply index_Ok in Hu0 as [_ Hu0]. rewrite Nat2Z.id in Hf, Hname.
    simpl in Hu0. destruct (f c name) as [| u0' rest] eqn:Hu; [done |].
    injection Hu0 as ->.
    assert (st = (tab ++ [u0 :: rest], wx ++ [Z.max (strlen name) (strlen u0)])) as ->.
    { destruct (Z.gtb_spec (strlen u0) (strlen name));
        injection Hbody as <-;
        [rewrite Z.max_r by lia | rewrite Z.max_l by lia]; done. }
    destruct (IH _ _ _ Hrest) as (us & ws & -> & -> & Hlus & Hlws & Hall).
    exists ((u0 :: rest) :: us), (Z.max (strlen name) (strlen u0) :: ws).
    rewrite <- !app_assoc. simpl.
    repeat split; try done; try congruence.
    intros [| i] c' Hc'.
    + injection Hc' as <-. rewrite Nat.add_0_r.
      exists f, name, u0, rest. rewrite Hu. done.
    + replace (k + S i)%nat with (S k + i)%nat by lia. by apply Hall.
Qed.

Lemma colWidths_Ok s tab wx :
  colWidths s = Ok (tab, wx) ->
  length tab = length (Cols s) /\ length wx = length (Cols s) /\
  forall j c, Cols s !! j = Some c ->
    exists f name u0 rest,
      ColFmt s !! j = Some f /\ ColNames s !! j = Some name /\
      f c name = u0 :: rest /\ tab !! j = Some (f c name) /\
      wx !! j = Some (Z.max (strlen name) (strlen u0)).
Proof.
  unfold colWidths, enumerate, indices. intros Hloop.
  apply colWidths_from in Hloop as (us & ws & -> & -> & Hlus & Hlws & Hall).
  simpl. repeat split; try done.
Qed.

Lemma colWidths_nonneg s tab wx :
  colWidths s = Ok (tab, wx) -> Forall (fun w => 0 <= w) wx.
Proof.
  intros Hcw. destruct (colWidths_Ok s tab wx Hcw) as (_ & Hlen & Hall).
  apply Forall_lookup. intros j w Hw.
  destruct (lookup_lt_is_Some_2 (Cols s) j) as [c Hc].
  { rewrite <- Hlen. by eapply lookup_lt_Some. }
  destruct (Hall j c Hc) as (f & name & u0 & rest & _ & _ & _ & _ & Hwx).
  rewrite Hw in Hwx. injection Hwx as ->.
  pose proof (strlen_nonneg name). lia.
Qed.

Lemma totalWidth_Ok s (gap : Z) (wx : list Z) (x0 : string) :
  Top s !! 0%nat = Some x0 ->
  Forall (fun w => 0 <= w) wx -> sumZ wx <= max_int ->
  0 <= gap -> gap + 2 * strlen x0 <= max_int ->
  totalWidth s gap wx
  = Ok (Z.max (Z.max (sumZ wx) (strlen (Title s))) (gap + 2 * strlen x0)).
Proof.
  intros Hx0 Hpos Hsum Hgap Hmax. unfold totalWidth.
  rewrite sum_fold_int_add by (done || lia). rewrite Z.add_0_l.
  assert (index (Top s) 0 = Ok x0) as -> by (by apply index_Ok).
  pose proof (strlen_nonneg x0).
  cbn [mbind outcome_bind]. unfold int_add, int_mul.
  rewrite (int_wrap_id (2 * strlen x0)) by (unfold min_int; lia).
  rewrite int_wrap_id by (unfold min_int; lia).
  f_equal.
  destruct (Z.ltb_spec (sumZ wx) (strlen (Title s)));
    [destruct (Z.ltb_spec (strlen (Title s)) (gap + 2 * strlen x0))
    | destruct (Z.ltb_spec (sumZ wx) (gap + 2 * strlen x0))]; lia.
Qed.

Lemma String_Ok s txt s' :
  String s = Ok (txt, s') ->
  exists s1 tab wx w,
    cleanTop s = Ok s1 /\ colWidths s1 = Ok (tab, wx) /\
    totalWidth s1 10 wx = Ok w /\ s' = set_tw s1 w.
Proof.
  unfold String. intros (s1 & Hclean & Hrest)%bind_Ok.
  apply bind_Ok in Hrest as ([tab wx] & Hcw & Hrest).
  cbn zeta in Hrest.
  apply bind_Ok in Hrest as (w & Hw & Hrest).
  exists s1, tab, wx, w. repeat split; try done.
  repeat (apply bind_Ok in Hrest as (? & _ & Hrest); cbn zeta in Hrest).
  by injection Hrest as _ <-.
Qed.

(** C6, as the code has it: in every table that [String] renders, the width
    of a column is the larger of the length of its header and the length of
    its first formatted value; the total width is the largest of the sum of
    the column widths, the length of the title, and the gap (10) plus twice
    the width of the top fields (all padded to the widest of them); so it
    is at least the length of the title and at least every column width. *)
Theorem String_widths s txt s' tab wx :
  String s = Ok (txt, s') ->
  colWidths s = Ok (tab, wx) ->
  sumZ wx <= max_int ->
  10 + 2 * widest (Top s) <= max_int ->
  length wx = length (Cols s) /\
  (forall j c, Cols s !! j = Some c ->
     exists f name u0 rest,
       ColFmt s !! j = Some f /\ ColNames s !! j = Some name /\
       f c name = u0 :: rest /\
       wx !! j = Some (Z.max (strlen name) (strlen u0))) /\
  tw s' = Z.max (Z.max (sumZ wx) (strlen (Title s))) (10 + 2 * widest (Top s)) /\
  strlen (Title s) <= tw s' /\
  (forall j w, wx !! j = Some w -> w <= tw s').
Proof.
  intros Hstr Hcw Hsum Hmax.
  destruct (colWidths_Ok s tab wx Hcw) as (_ & Hlen & Hall).
  pose proof (colWidths_nonneg s tab wx Hcw) as Hpos.
  pose proof (widest_nonneg (Top s)) as HW.
  destruct (String_Ok s txt s' Hstr) as (s1 & tab1 & wx1 & w & Hclean & Hcw1 & Hw & ->).
  apply cleanTop_Ok in Hclean as [-> Hne]; [| lia].
  change (colWidths s = Ok (tab1, wx1)) in Hcw1.
  rewrite Hcw in Hcw1. injection Hcw1 as <- <-.
  destruct (Top s !! 0%nat) as [x0 |] eqn:Hx0.
  2:{ apply lookup_ge_None in Hx0. destruct (Top s); [done | simpl in Hx0; lia]. }
  assert (strlen (padded (widest (Top s)) x0) = widest (Top s)) as Hpad.
  { apply padded_strlen, widest_ge. by eapply list_elem_of_lookup_2. }
  rewrite (totalWidth_Ok _ 10 wx (padded (widest (Top s)) x0)) in Hw.
  - injection Hw as <-. cbn [tw set_tw Title set_Top]. rewrite Hpad.
    split; [done |]. split.
    { intros j c Hc. destruct (Hall j c Hc) as (f & name & u0 & rest & ? & ? & ? & _ & ?).
      by exists f, name, u0, rest. }
    split; [done |]. split; [lia |].
    intros j w Hj.
    assert (w <= sumZ wx); [| lia].
    clear -Hj Hpos. revert j Hj.
    induction Hpos as [| w0 wx Hw0 Hpos IH]; intros j Hj; [done |].
    assert (0 <= sumZ wx) by (clear -Hpos; induction Hpos; simpl; lia).
    destruct j as [| j]; simpl in *.
    + injection Hj as ->. lia.
    + specialize (IH j Hj). lia.
  - cbn [Top set_Top]. by rewrite list_lookup_fmap, Hx0.
  - done.
  - done.
  - lia.
  - rewrite Hpad. done.
Qed.
End SummaryFacts.

(** C6 at [small_table]: the column widths are 3 and 3, and the total width
    is 10 + 2 * 8. *)
Lemma String_widths_demo :
  exists txt s',
    String (fmt := ascii_fmt) small_table = Ok (txt, s') /\
    colWidths small_table = Ok ([["1.5"; "2.5"]; ["3"; "4"]], [3; 3]) /\
    tw s' = 26 /\ strlen (Title small_table) <= tw s'.
Proof.
  destruct (String (fmt := ascii_fmt) small_table) as [[txt s'] | msg] eqn:Hstr;
    [| by vm_compute in Hstr].
  destruct (String_widths (fmt := ascii_fmt) small_table txt s'
              [["1.5"; "2.5"]; ["3"; "4"]] [3; 3] Hstr)
    as (_ & _ & Htw & Htitle & _);
    [reflexivity | by vm_compute | by vm_compute |].
  exists txt, s'. split; [reflexivity |]. split; [reflexivity |].
  split; [exact Htw | exact Htitle].
Defined.

(** C6, refuted as stated: the width of the column of [ragged_table] is 1,
    the length of its header and of its first value, while its widest value
    has 20 characters; and the total width, 10, is smaller than that. *)
Lemma String_width_from_first_value :
  exists txt s',
    String (fmt := ascii_fmt) ragged_table = Ok (txt, s') /\
    colWidths ragged_table = Ok ([["1"; "12345678901234567890"]], [1]) /\
    widest ["1"; "12345678901234567890"] = 20 /\
    tw s' = 10.
Proof. repeat eexists. Qed.

(** * Further properties *)

(** ** The Go runtime *)
(** A loop whose body returns a function of the state and the element, under
    an invariant that the function keeps, is a fold. *)
Lemma for_each_fold {A S : Type} (I : S -> Prop) (body : S -> A -> outcome S)
    (g : S -> A -> S) (l : list A) (s : S) :
  I s ->
  (forall s x, I s -> x ∈ l -> body s x = Ok (g s x) /\ I (g s x)) ->
  for_each body l s = Ok (fold_left g l s) /\ I (fold_left g l s).
Proof.
  revert s. induction l as [| x l IH]; intros s HI Hstep; simpl; [done |].
  destruct (Hstep s x HI) as [-> HI1]; [apply elem_of_cons; by left |].
  simpl. apply IH; [done |].
  intros s2 y HI2 Hy. apply Hstep; [done |]. apply elem_of_cons. by right.
Qed.

(** A loop that returns ran its body, and the body returned, on every element,
    each time in a state that satisfies the invariant. *)
Lemma for_each_Ok_inv {A S : Type} (I : S -> Prop) (body : S -> A -> outcome S)
    (l : list A) (s s' : S) (a : A) :
  I s ->
  (forall s x s', I s -> body s x = Ok s' -> I s') ->
  for_each body l s = Ok s' -> a ∈ l ->
  exists s1 s2, I s1 /\ body s1 a = Ok s2.
Proof.
  intros HI Hstep. revert s HI. induction l as [| x l IH]; intros s HI; simpl.
  - by intros _ ?%elem_of_nil.
  - intros (s1 & Hb & Hrest)%bind_Ok [-> | Hin]%elem_of_cons.
    + by exists s, s1.
    + apply (IH s1); eauto.
Qed.

Lemma index_Ok_range {A : Type} (l : list A) (i : Z) (x : A) :
  index l i = Ok x -> 0 <= i < len l.
Proof.
  intros [Hi Hx]%index_Ok. apply lookup_lt_Some in Hx. unfold len. lia.
Qed.

Lemma make_length {F : Type} {F64 : Float64 F} (n : Z) (l : list F) :
  make n = Ok l -> 0 <= n /\ len l = n.
Proof.
  unfold make. destruct (Z.ltb_spec n 0); [discriminate |].
  intros [= <-]. unfold len. rewrite length_replicate. lia.
Qed.

Lemma make_negative {F : Type} {F64 : Float64 F} (n : Z) : n < 0 -> panics (make n).
Proof. unfold make. intros Hn. destruct (Z.ltb_spec n 0); [by eexists | lia]. Qed.

Lemma bind_returns {A B : Type} (m : outcome A) (k : A -> outcome B) :
  (exists a, m = Ok a) -> (forall a, m = Ok a -> exists b, k a = Ok b) ->
  exists b, (a ← m; k a) = Ok b.
Proof. intros [a Ha] Hk. rewrite Ha. simpl. by apply Hk. Qed.

Lemma for_each_returns {A S : Type} (body : S -> A -> outcome S) (l : list A) (s : S) :
  (forall s x, x ∈ l -> exists s', body s x = Ok s') ->
  exists s', for_each body l s = Ok s'.
Proof.
  intros Hbody.
  destruct (for_each_Ok (fun _ => True) body l s I) as (s' & Hs' & _); [| by exists s'].
  intros s0 x _ Hx. destruct (Hbody s0 x Hx) as [s1 Hs1]. by exists s1.
Qed.

(** ** Fitted values: the linear predictor *)

Section FV.
Context {F P : Type} {F64 : Float64 F}.
Implicit Types rslt : BaseResults F P.

Lemma add_scaled_length (b : F) (z fv : list F) : length (add_scaled b z fv) = length fv.
Proof. unfold add_scaled. by rewrite length_imap. Qed.

(** The inner loop of [FittedValues]. *)
Lemma inner_loop_add_scaled (ps : list F) (k : Z) (b : F) (z fv : list F) :
  index ps k = Ok b -> (length z <= length fv)%nat ->
  for_each (fun fv i =>
      a ← index fv i;
      b ← index ps k;
      c ← index z i;
      store fv i (f_add a (f_mul b c)))
    (indices z) fv
  = Ok (add_scaled b z fv).
Proof.
  intros Hb Hlen. rewrite indices_enumerate, for_each_fmap.
  unfold enumerate, indices.
  rewrite (for_each_fill_from _
             (fun i c => f_add (default f_zero (fv !! i)) (f_mul b c)) z fv 0 fv);
    [| simpl; lia | done | done |].
  - f_equal. simpl. apply list_eq. intros i.
    unfold add_scaled. rewrite list_lookup_imap.
    destruct (decide (i < length z)%nat) as [Hi | Hi].
    + rewrite lookup_app_l by (by rewrite length_imap).
      rewrite list_lookup_imap.
      destruct (lookup_lt_is_Some_2 z i Hi) as [c Hc].
      destruct (lookup_lt_is_Some_2 fv i) as [a Ha]; [lia |].
      by rewrite Hc, Ha.
    + rewrite lookup_app_r by (rewrite length_imap; lia).
      rewrite length_imap, lookup_drop.
      replace (length z + (i - length z))%nat with i by lia.
      rewrite (lookup_ge_None_2 z i) by lia.
      by destruct (fv !! i).
  - intros cur i c Hi Hcur Hdrop. simpl.
    pose proof (lookup_lt_Some _ _ _ Hi) as Hlt.
    destruct (lookup_lt_is_Some_2 fv i) as [a Ha]; [lia |].
    assert (cur !! i = Some a) as Hcuri.
    { apply (f_equal (fun l => l !! 0%nat)) in Hdrop.
      rewrite !lookup_drop, !Nat.add_0_r in Hdrop. simpl in Hdrop. congruence. }
    rewrite (index_of_nat _ _ _ Hcuri), Hb, (index_of_nat _ _ _ Hi). simpl.
    rewrite Ha. simpl. apply store_of_nat. lia.
Qed.

Lemma fold_add_scaled_lookup (ps : list F) (da : list (list F)) (l : list (Z * Z))
    (fv : list F) (i : nat) (a : F) :
  fv !! i = Some a ->
  fold_left (fun fv '(k, j) =>
      add_scaled (default f_zero (ps !! Z.to_nat k)) (default [] (da !! Z.to_nat j)) fv)
    l fv !! i
  = Some (fold_left (fun acc '(k, j) =>
      match da !! Z.to_nat j ≫= (fun z => z !! i) with
      | Some c => f_add acc (f_mul (default f_zero (ps !! Z.to_nat k)) c)
      | None => acc
      end) l a).
Proof.
  revert fv a. induction l as [| [k j] l IH]; intros fv a Ha; simpl; [done |].
  apply IH. unfold add_scaled. rewrite list_lookup_imap, Ha. simpl.
  destruct (da !! Z.to_nat j) as [z |]; simpl; [| done].
  by destruct (z !! i).
Qed.

(** X4: under the preconditions of X2, entry [i] of the fitted values is the
    sum, started at zero and taken in the order of [Xpos()], of coefficient
    [k] times entry [i] of the column at [Xpos()[k]]; a column shorter than
    [i] adds nothing to that entry. *)
Theorem FittedValues_linear_predictor rslt (da : list (list F)) :
  len da = len (Dataset (model rslt)) ->
  0 <= NumObs (model rslt) ->
  len (Xpos (model rslt)) <= len (params rslt) ->
  (forall j, j ∈ Xpos (model rslt) ->
     exists z, index da j = Ok z /\ len z <= NumObs (model rslt)) ->
  exists fv,
    FittedValues rslt (Some da) = Ok fv /\ len fv = NumObs (model rslt) /\
    forall i, 0 <= i < NumObs (model rslt) ->
      index fv i
      = Ok (predictor_at (params rslt) da (Xpos (model rslt)) (Z.to_nat i)).
Proof.
  intros Hlen Hn Hps Hcols. unfold FittedValues.
  rewrite Hlen, Z.eqb_refl, make_Ok by done. simpl.
  set (n := NumObs (model rslt)) in *.
  destruct (for_each_fold (fun fv : list F => length fv = Z.to_nat n)
    (fun fv '(k, j) =>
       z ← index da j;
       for_each (fun fv i =>
           a ← index fv i;
           b ← index (params rslt) k;
           c ← index z i;
           store fv i (f_add a (f_mul b c)))
         (indices z) fv)
    (fun fv '(k, j) =>
       add_scaled (default f_zero (params rslt !! Z.to_nat k))
         (default [] (da !! Z.to_nat j)) fv)
    (enumerate (Xpos (model rslt))) (replicate (Z.to_nat n) f_zero))
    as [Hcall Hlenfv].
  - by rewrite length_replicate.
  - intros fv [k j] Hfv Hin.
    apply list_elem_of_lookup in Hin as [i Hi].
    apply lookup_zip_Some in Hi as [Hik Hij].
    pose proof (lookup_lt_Some _ _ _ Hij) as Hlt.
    rewrite indices_lookup in Hik by done. injection Hik as <-.
    destruct (Hcols j) as (z & Hz & Hzn); [by eapply list_elem_of_lookup_2 |].
    destruct (lookup_lt_is_Some_2 (params rslt) i) as [b Hb]; [unfold len in *; lia |].
    rewrite Hz. simpl.
    apply index_Ok in Hz as [_ Hz]. rewrite Hz, Nat2Z.id, Hb. simpl.
    rewrite (inner_loop_add_scaled _ _ b) by
      (by apply index_of_nat || (unfold len in *; lia)).
    by rewrite add_scaled_length.
  - eexists. split; [exact Hcall |].
    split; [unfold len; lia |].
    intros i Hi. rewrite <- (Z2Nat.id i) at 1 by lia.
    apply index_of_nat. unfold predictor_at.
    apply fold_add_scaled_lookup, lookup_replicate_2. lia.
Qed.
(** The inner loop of [FittedValues] keeps the length of the output. *)
Lemma inner_step_length (ps : list F) (k : Z) (z s s' : list F) (i : Z) :
  (a ← index s i; b ← index ps k; c ← index z i; store s i (f_add a (f_mul b c)))
  = Ok s' ->
  length s' = length s.
Proof.
  intros (a & _ & (b & _ & (c & _ & Hst)%bind_Ok)%bind_Ok)%bind_Ok.
  by apply store_length in Hst.
Qed.

Lemma inner_loop_length (ps : list F) (k : Z) (z fv fv' : list F) :
  for_each (fun fv i =>
      a ← index fv i;
      b ← index ps k;
      c ← index z i;
      store fv i (f_add a (f_mul b c)))
    (indices z) fv = Ok fv' ->
  length fv' = length fv.
Proof.
  apply (for_each_invariant (fun s : list F => length s = length fv)); [done |].
  intros s i s' Hs _ Hst. apply inner_step_length in Hst. congruence.
Qed.

(** X5: [FittedValues] returns only if the dataset has the training data's
    number of columns, [NumObs()] is not negative, and every position in
    [Xpos()] names a column of the dataset with at most [NumObs()] entries
    and, unless that column is empty, has a coefficient; the vector returned
    has [NumObs()] entries. *)
Theorem FittedValues_Ok_requires rslt (da : list (list F)) (out : list F) :
  FittedValues rslt (Some da) = Ok out ->
  len da = len (Dataset (model rslt)) /\
  0 <= NumObs (model rslt) /\
  len out = NumObs (model rslt) /\
  forall (k : nat) (j : Z), Xpos (model rslt) !! k = Some j ->
    exists z, index da j = Ok z /\ len z <= NumObs (model rslt) /\
              (z <> [] -> Z.of_nat k < len (params rslt)).
Proof.
  unfold FittedValues.
  destruct (Z.eqb_spec (len da) (len (Dataset (model rslt)))) as [Hlen | Hne];
    [| discriminate].
  simpl. intros (fv0 & Hmake & Hloop)%bind_Ok.
  unfold make in Hmake.
  destruct (Z.ltb_spec (NumObs (model rslt)) 0) as [| Hn]; [discriminate |].
  injection Hmake as <-.
  set (n := NumObs (model rslt)) in *.
  set (body := fun (fv : list F) '(k, j) =>
       z ← index da j;
       for_each (fun fv i =>
           a ← index fv i;
           b ← index (params rslt) k;
           c ← index z i;
           store fv i (f_add a (f_mul b c)))
         (indices z) fv) in *.
  assert (Hstep : forall s x s', length s = Z.to_nat n -> body s x = Ok s' ->
                                 length s' = Z.to_nat n).
  { intros s [k j] s' Hs (z & _ & Hin)%bind_Ok.
    apply inner_loop_length in Hin. congruence. }
  split; [done |]. split; [done |]. split.
  { apply (for_each_invariant (fun s : list F => length s = Z.to_nat n)) in Hloop.
    - unfold len. lia.
    - by rewrite length_replicate.
    - intros s x s' Hs _. by apply Hstep. }
  intros k j Hk.
  destruct (for_each_Ok_inv (fun s : list F => length s = Z.to_nat n) body _ _ _
              (Z.of_nat k, j) (length_replicate _ _) Hstep Hloop)
    as (s1 & s2 & Hs1 & Hb).
  { apply list_elem_of_lookup. exists k. by apply enumerate_lookup. }
  apply bind_Ok in Hb as (z & Hz & Hin).
  exists z. split; [done |].
  destruct z as [| c0 z'] eqn:Hzeq; [split; [unfold len; simpl; lia | done] |].
  rewrite <- Hzeq in *.
  assert (len z - 1 ∈ indices z) as Hlast.
  { apply elem_of_indices. unfold len. rewrite Hzeq. simpl. lia. }
  destruct (for_each_Ok_inv (fun s : list F => length s = Z.to_nat n) _ _ _ _
              (len z - 1) Hs1 (fun s i s' Hs Hb' =>
                 eq_trans (inner_step_length _ _ _ _ _ _ Hb') Hs) Hin Hlast)
    as (t1 & t2 & Ht1 & Hbt).
  apply bind_Ok in Hbt as (a & Ha & Hbt).
  apply bind_Ok in Hbt as (b & Hb & _).
  apply index_Ok_range in Ha. apply index_Ok_range in Hb.
  unfold len in *. split; [lia | intros _; lia].
Qed.
End FV.

Lemma FittedValues_linear_predictor_demo :
  exists fv,
    FittedValues demo_results (Some (Dataset demo_model)) = Ok fv /\
    index fv 1 = Ok (0 + 3 * 2 + 6 * 4)%float.
Proof.
  destruct (FittedValues_linear_predictor demo_results (Dataset demo_model))
    as (fv & Hcall & _ & Hat).
  - reflexivity.
  - by vm_compute.
  - by vm_compute.
  - intros j [-> | [-> | []%elem_of_nil]%elem_of_cons]%elem_of_cons;
      eexists; (split; [reflexivity | by vm_compute]).
  - exists fv. split; [exact Hcall |]. apply (Hat 1). by vm_compute.
Defined.

(** ** Results: bounds, frame and NaN *)

Section R.
Context {F P : Type} {F64 : Float64 F} {M_sqrt : MathSqrt F}.
Implicit Types rslt : BaseResults F P.

(** What a call of [StdErr] that fills the cache returns. *)
Lemma StdErr_fill_inv rslt v x rslt' :
  vcov rslt = Some v -> stderr rslt = None -> StdErr rslt = Ok (x, rslt') ->
  exists se, x = Some se /\ rslt' = set_stderr rslt se /\
             len se = NumParams (model rslt).
Proof.
  intros Hv Hnone. unfold StdErr. rewrite Hv, Hnone.
  intros (se0 & Hmake & (se & Hloop & [= <- <-])%bind_Ok)%bind_Ok.
  exists se. split; [done |]. split; [done |].
  apply make_length in Hmake as [_ Hlen0].
  apply (for_each_invariant (fun s : list F => length s = length se0)) in Hloop.
  - unfold len in *. lia.
  - done.
  - intros s i s' Hs _ (y & _ & Hst)%bind_Ok. apply store_length in Hst. congruence.
Qed.

(** X6: [StdErr] panics on its first call when the covariance slice is
    present but has fewer than [NumParams()] squared entries (the square
    within the range of [int]), or when [NumParams()] is negative. *)
Theorem StdErr_short_vcov_panics rslt v :
  vcov rslt = Some v -> stderr rslt = None ->
  let p := NumParams (model rslt) in
  p < 0 \/ (p * p <= max_int /\ len v < p * p) ->
  panics (StdErr rslt).
Proof.
  intros Hv Hnone p Hbad. unfold StdErr. rewrite Hv, Hnone. fold p.
  destruct Hbad as [Hneg | [Hmax Hshort]].
  { by apply panics_bind, make_negative. }
  pose proof (len_nonneg v).
  destruct (Z.ltb_spec p 0) as [Hneg | Hpos];
    [by apply panics_bind, make_negative |].
  assert (0 < p) as Hp by nia.
  rewrite make_Ok by lia. simpl.
  apply panics_bind.
  apply (for_each_panics (fun _ => True) _ _ _ (p - 1)); [done | done | |].
  - apply elem_of_indices. unfold len. rewrite length_replicate. lia.
  - intros s _. apply panics_bind. unfold int_add, int_mul.
    rewrite (int_wrap_id ((p - 1) * p)) by (unfold min_int, max_int in *; nia).
    rewrite int_wrap_id by (unfold min_int, max_int in *; nia).
    apply index_panics. nia.
Qed.

(** X7: [ZScores] panics on its first call when there are fewer
    coefficients than [NumParams()]. *)
Theorem ZScores_short_params_panics rslt v :
  vcov rslt = Some v -> zscores rslt = None -> stderr rslt = None ->
  len (params rslt) < NumParams (model rslt) ->
  panics (ZScores rslt).
Proof.
  intros Hv Hz Hse Hshort. unfold ZScores. rewrite Hv, Hz.
  pose proof (len_nonneg (params rslt)).
  rewrite make_Ok by lia. simpl.
  destruct (StdErr (set_zscores rslt _)) as [[x r] | msg] eqn:Hcall; [| by eexists].
  apply StdErr_fill_inv with (v := v) in Hcall as (se & -> & -> & Hlen); [| done | done].
  simpl in *.
  apply panics_bind.
  apply (for_each_panics (fun _ => True) _ _ _ (len (params rslt))); [done | done | |].
  - apply elem_of_indices. lia.
  - intros s _. apply panics_bind, index_panics. lia.
Qed.

(** The derived accessors leave the fit alone. *)
Lemma StdErr_frame rslt x rslt' :
  StdErr rslt = Ok (x, rslt') ->
  fresh rslt' = fresh rslt /\ zscores rslt' = zscores rslt /\ pvalues rslt' = pvalues rslt.
Proof.
  unfold StdErr. destruct (vcov rslt); [| by intros [= _ <-]].
  destruct (stderr rslt); [by intros [= _ <-] |].
  intros (se0 & _ & (se & _ & [= _ <-])%bind_Ok)%bind_Ok. by destruct rslt.
Qed.

Lemma ZScores_frame rslt x rslt' :
  ZScores rslt = Ok (x, rslt') ->
  fresh rslt' = fresh rslt /\ pvalues rslt' = pvalues rslt.
Proof.
  unfold ZScores. destruct (vcov rslt); [| by intros [= _ <-]].
  destruct (zscores rslt); [by intros [= _ <-] |].
  intros (zs0 & _ & ([std r] & Hse & (zs & _ & [= _ <-])%bind_Ok)%bind_Ok)%bind_Ok.
  apply StdErr_frame in Hse as (Hf & _ & Hp).
  destruct r, rslt; simpl in *. by simplify_eq.
Qed.

Lemma ZScores_fill_length rslt x rslt' :
  zscores rslt = None -> ZScores rslt = Ok (x, rslt') ->
  forall zs, x = Some zs -> len zs = NumParams (model rslt).
Proof.
  intros Hnone. unfold ZScores. destruct (vcov rslt); [| by intros [= <- _]].
  rewrite Hnone.
  intros (zs0 & Hmake & ([std r] & _ & (zs & Hloop & [= <- _])%bind_Ok)%bind_Ok)%bind_Ok
         zs' [= <-].
  apply make_length in Hmake as [_ Hlen0].
  apply (for_each_invariant (fun s : list F => length s = length zs0)) in Hloop.
  - unfold len in *. lia.
  - done.
  - intros s i s' Hs _ (b & _ & (y & _ & Hst)%bind_Ok)%bind_Ok.
    apply store_length in Hst. congruence.
Qed.
End R.

Section PV.
Context {F P : Type} {F64 : Float64 F}.
Context {M_sqrt : MathSqrt F} {M_abs : MathAbs F} {M_erfc : MathErfc F}.
Implicit Types rslt : BaseResults F P.

Lemma PValues_frame rslt x rslt' :
  PValues rslt = Ok (x, rslt') ->
  fresh rslt' = fresh rslt /\ stderr rslt' = stderr rslt /\ zscores rslt' = zscores rslt.
Proof.
  unfold PValues. destruct (vcov rslt); [| by intros [= _ <-]].
  destruct (pvalues rslt); [by intros [= _ <-] |].
  intros (pv0 & _ & (pv & _ & [= _ <-])%bind_Ok)%bind_Ok. by destruct rslt.
Qed.

Lemma PValues_fill_length rslt x rslt' :
  pvalues rslt = None -> PValues rslt = Ok (x, rslt') ->
  forall pv, x = Some pv -> len pv = NumParams (model rslt).
Proof.
  intros Hnone. unfold PValues. destruct (vcov rslt); [| by intros [= <- _]].
  rewrite Hnone.
  intros (pv0 & Hmake & (pv & Hloop & [= <- _])%bind_Ok)%bind_Ok pv' [= <-].
  apply make_length in Hmake as [_ Hlen0].
  apply (for_each_invariant (fun s : list F => length s = length pv0)) in Hloop.
  - unfold len in *. lia.
  - done.
  - intros s [i z] s' Hs _ Hst. apply store_length in Hst. congruence.
Qed.

(** X8: a call of [StdErr], [ZScores] or [PValues] that returns leaves the
    model, the names, the coefficients, the covariance matrix and the
    log-likelihood of the receiver as they were. *)
Theorem derived_accessors_leave_fit rslt (x : option (list F)) rslt' :
  StdErr rslt = Ok (x, rslt') \/ ZScores rslt = Ok (x, rslt') \/
  PValues rslt = Ok (x, rslt') ->
  Model rslt' = Model rslt /\ Names rslt' = Names rslt /\
  Params rslt' = Params rslt /\ VCov rslt' = VCov rslt /\
  ResultsLogLike rslt' = ResultsLogLike rslt.
Proof.
  intros Hcall.
  assert (fresh rslt' = fresh rslt) as Hf.
  { destruct Hcall as [Hc | [Hc | Hc]].
    - by apply StdErr_frame in Hc as [? _].
    - by apply ZScores_frame in Hc as [? _].
    - by apply PValues_frame in Hc as [? _]. }
  unfold Model, Names, Params, VCov, ResultsLogLike.
  destruct rslt, rslt'. unfold fresh, NewBaseResults in Hf. simpl in *.
  injection Hf as -> -> -> -> ->. done.
Qed.

(** X9: the vector that [StdErr], [ZScores] or [PValues] computes on its
    first call has [NumParams()] entries, whatever the lengths of the
    coefficients and of the covariance matrix. *)
Theorem derived_vectors_length rslt :
  let p := NumParams (model rslt) in
  (forall se r, stderr rslt = None -> StdErr rslt = Ok (Some se, r) -> len se = p) /\
  (forall zs r, zscores rslt = None -> ZScores rslt = Ok (Some zs, r) -> len zs = p) /\
  (forall pv r, pvalues rslt = None -> PValues rslt = Ok (Some pv, r) -> len pv = p).
Proof.
  intros p. split; [| split].
  - intros se r Hnone Hcall. destruct (vcov rslt) as [v |] eqn:Hv.
    + apply StdErr_fill_inv with (v := v) in Hcall as (se' & [= <-] & _ & Hlen); done.
    + by rewrite StdErr_absent in Hcall.
  - intros zs r Hnone Hcall. by eapply ZScores_fill_length.
  - intros pv r Hnone Hcall. by eapply PValues_fill_length.
Qed.
End PV.

(** IEEE arithmetic: the square root of a negative number, and a quotient by
    NaN. *)
Lemma sqrt_negative_SF (x : float) :
  PrimFloat.ltb x 0 = true -> Prim2SF (PrimFloat.sqrt x) = S754_nan.
Proof.
  intros Hlt. rewrite FloatAxioms.ltb_spec in Hlt. rewrite FloatAxioms.sqrt_spec.
  change (Prim2SF 0) with (S754_zero false) in Hlt.
  destruct (Prim2SF x) as [s | s | | s m e]; try destruct s;
    simpl in *; try discriminate; reflexivity.
Qed.

Lemma div_by_nan (b s : float) :
  Prim2SF s = S754_nan -> PrimFloat.is_nan (PrimFloat.div b s) = true.
Proof.
  intros Hs. unfold PrimFloat.is_nan.
  rewrite FloatAxioms.eqb_spec, FloatAxioms.div_spec, Hs.
  by destruct (Prim2SF b).
Qed.

Section IEEE2.
Context {P : Type}.
Implicit Types rslt : BaseResults float P.

(** X10: over IEEE floats, a negative diagonal entry of the covariance
    matrix gives a NaN z-score for its coefficient, without any panic. *)
Theorem ZScores_negative_diag_nan rslt v :
  well_formed rslt -> caches_valid rslt -> vcov rslt = Some v ->
  let p := NumParams (model rslt) in
  exists zs rslt',
    ZScores rslt = Ok (Some zs, rslt') /\
    forall i x, 0 <= i < p -> index v (i * p + i) = Ok x ->
      PrimFloat.ltb x 0 = true ->
      exists y, index zs i = Ok y /\ PrimFloat.is_nan y = true.
Proof.
  intros Hwf Hval Hv p. pose proof Hwf as (Hp & Hps & _).
  destruct (ZScores_value rslt v Hwf Hval Hv) as (r & Hcall & _).
  eexists _, r. split; [exact Hcall |].
  intros i x Hi Hx Hneg. fold p.
  apply index_Ok in Hx as [_ Hx].
  destruct (lookup_lt_is_Some_2 (params rslt) (Z.to_nat i)) as [b Hb].
  { unfold len in Hps. lia. }
  exists (f_div b (Sqrt x)). split.
  - apply index_Ok. split; [lia |].
    unfold ratios. rewrite list_lookup_imap, std_errors_lookup by lia.
    simpl. rewrite Hb. simpl. unfold diag. rewrite Z2Nat.id by lia. fold p.
    by rewrite Hx.
  - by apply div_by_nan, sqrt_negative_SF.
Qed.
End IEEE2.

Lemma ZScores_negative_diag_nan_demo :
  exists zs rslt',
    ZScores noisy_results = Ok (Some zs, rslt') /\
    exists y, index zs 1 = Ok y /\ PrimFloat.is_nan y = true.
Proof.
  destruct (ZScores_negative_diag_nan noisy_results noisy_vcov noisy_well_formed
              (NewBaseResults_valid _ _ _ _ _) eq_refl)
    as (zs & r & Hcall & Hnan).
  exists zs, r. split; [exact Hcall |].
  apply (Hnan 1 (-1)%float); [simpl; lia | reflexivity | reflexivity].
Defined.

(** X5 at [demo_results]. *)
Lemma FittedValues_Ok_requires_demo :
  len (Dataset demo_model) = 3 /\
  exists z, index (Dataset demo_model) 1 = Ok z /\ len z <= NumObs demo_model.
Proof.
  destruct (FittedValues demo_results (Some (Dataset demo_model)))
    as [out | msg] eqn:Hcall; [| by vm_compute in Hcall].
  destruct (FittedValues_Ok_requires demo_results (Dataset demo_model) out Hcall)
    as (_ & _ & _ & Hcols).
  split; [reflexivity |].
  destruct (Hcols 1%nat 1 eq_refl) as (z & Hz & Hlen & _). by exists z.
Defined.

(** X6 at [short_vcov_results] and X7 at [short_params_results]. *)
Lemma StdErr_short_vcov_panics_demo : panics (StdErr short_vcov_results).
Proof.
  apply (StdErr_short_vcov_panics short_vcov_results [4; 1; 1]%float);
    [reflexivity | reflexivity |].
  right. by vm_compute.
Defined.

Lemma ZScores_short_params_panics_demo : panics (ZScores short_params_results).
Proof.
  apply (ZScores_short_params_panics short_params_results demo_vcov);
    [reflexivity | reflexivity | reflexivity | by vm_compute].
Defined.

(** X8 at [sym_results], after [ZScores]. *)
Lemma derived_accessors_leave_fit_demo :
  exists x r, ZScores sym_results = Ok (x, r) /\
              Params r = [Lit 0] /\ VCov r = Some [Lit 1].
Proof.
  destruct (ZScores sym_results) as [[x r] | msg] eqn:Hz; [| by vm_compute in Hz].
  exists x, r. split; [reflexivity |].
  destruct (derived_accessors_leave_fit sym_results x r) as (_ & _ & Hp & Hv & _);
    [right; by left |].
  by rewrite Hp, Hv.
Defined.

(** X9 at [sym_results], for [PValues] as the first call. *)
Lemma derived_vectors_length_demo :
  exists pv r, PValues sym_results = Ok (Some pv, r) /\ len pv = 1.
Proof.
  destruct (PValues sym_results) as [[[pv |] r] | msg] eqn:Hcall;
    [| by vm_compute in Hcall | by vm_compute in Hcall].
  exists pv, r. split; [reflexivity |].
  destruct (derived_vectors_length sym_results) as (_ & _ & Hpv).
  apply (Hpv pv r eq_refl Hcall).
Defined.

(** ** The covariance matrix: what GetVcov reads and returns *)

Section V.
Context {F P E : Type} {F64 : Float64 F} {Inv : MatInverse F E}.

(** X11: [GetVcov] reads the number of parameters and the expected Hessian
    of the model, nothing else: two models that agree on these give the same
    result, whatever their observed Hessians. *)
Theorem GetVcov_uses_expected_Hessian_only (m m' : RegFitter F P) (params : P) :
  NumParams m = NumParams m' ->
  (forall buf, Hessian m params ExpHess buf = Hessian m' params ExpHess buf) ->
  GetVcov m params = GetVcov m' params.
Proof.
  intros Hn Hess. unfold GetVcov. rewrite Hn.
  destruct (make (int_mul (NumParams m') (NumParams m'))) as [buf | msg]; [| done].
  simpl. by rewrite Hess.
Qed.

(** X12: when [GetVcov] returns, it returns either a nil matrix with the
    error of [Inverse], having written its message to [os.Stderr], or the
    matrix of [Inverse] scaled by -1 with a nil error, having written
    nothing; never a matrix together with an error. *)
Theorem GetVcov_matrix_or_error (model : RegFitter F P) (params : P)
    (cov : option (list F)) (err : option E) (out : string) :
  GetVcov model params = Ok (cov, err, out) ->
  (exists e, cov = None /\ err = Some e /\ out = "Can't invert Hessian" +:+ newline /\
             Inverse (NumParams model) (ExpectedHessian model params) = Ok (inl e)) \/
  (exists hi, cov = Some (Scale (f_neg f_one) hi) /\ err = None /\ out = "" /\
              Inverse (NumParams model) (ExpectedHessian model params) = Ok (inr hi)).
Proof.
  unfold GetVcov, ExpectedHessian.
  intros (hess & Hmake & Hrest)%bind_Ok. cbn zeta in Hrest.
  apply bind_Ok in Hrest as (hessi & _ & Hrest).
  apply bind_Ok in Hrest as (r & Hinv & Hrest).
  unfold make in Hmake.
  destruct (int_mul (NumParams model) (NumParams model) <? 0); [discriminate |].
  injection Hmake as <-.
  destruct r as [e | hi]; injection Hrest as <- <- <-; [left | right]; eauto.
Qed.
End V.

Lemma GetVcov_uses_expected_Hessian_only_demo :
  GetVcov poisson1 [Q2Qc 0; Q2Qc 0] = GetVcov poisson1_observed [Q2Qc 0; Q2Qc 0].
Proof.
  apply (GetVcov_uses_expected_Hessian_only (Inv := exact_inverse)
           poisson1 poisson1_observed); [reflexivity | done].
Defined.

Lemma GetVcov_matrix_or_error_demo :
  exists hi,
    Inverse 2 (ExpectedHessian poisson1 [Q2Qc 0; Q2Qc 0]) = Ok (inr hi) /\
    this <$> hi = [-43 # 251; 5 # 251; 5 # 251; -7 # 502]%Q.
Proof.
  destruct (GetVcov (Inv := exact_inverse) poisson1 [Q2Qc 0; Q2Qc 0])
    as [[[cov err] out] | msg] eqn:Hcall; [| by vm_compute in Hcall].
  destruct (GetVcov_matrix_or_error _ _ _ _ _ Hcall)
    as [(e & _ & _ & _ & Hinv) | (hi & _ & _ & _ & Hinv)].
  - by vm_compute in Hinv.
  - exists hi. split; [exact Hinv |].
    vm_compute in Hinv. by injection Hinv as <-.
Defined.

(** ** The summary table: cleanTop and String *)

Lemma Repeat_Ok (c : string) (n : Z) :
  0 <= n -> strlen c * n <= max_int -> Repeat c n = Ok (repeat_string c (Z.to_nat n)).
Proof.
  intros Hn Hmax. unfold Repeat.
  destruct (Z.ltb_spec n 0); [lia |].
  destruct (Z.gtb_spec (strlen c * n) max_int); [lia | done].
Qed.

Lemma widest_le (u : list string) (w : Z) :
  0 <= w -> (forall x, x ∈ u -> strlen x <= w) -> widest u <= w.
Proof.
  intros Hw. unfold widest. induction u as [| y u IH]; intros Hall;
    cbn [foldr fmap list_fmap]; [lia |].
  assert (strlen y <= w) by (apply Hall, elem_of_cons; by left).
  assert (foldr Z.max 0 (strlen <$> u) <= w).
  { apply IH. intros x Hx. apply Hall, elem_of_cons. by right. }
  lia.
Qed.

Lemma widest_all_equal (u : list string) (w : Z) :
  u <> [] -> (forall x, x ∈ u -> strlen x = w) -> widest u = w.
Proof.
  intros Hne Hall. destruct u as [| x u]; [done |].
  assert (strlen x = w) as Hx by (apply Hall, elem_of_cons; by left).
  pose proof (strlen_nonneg x).
  apply Z.le_antisymm.
  - apply widest_le; [lia |]. intros y Hy. by rewrite Hall.
  - rewrite <- Hx. apply widest_ge, elem_of_cons. by left.
Qed.

Section S.
Context {Col : Type} {fmt : FmtPkg}.
Implicit Types s : SummaryTable Col.

(** [cleanTop] on a table with a top part. *)
Lemma cleanTop_compute s :
  Top s <> [] -> widest (Top s) <= max_int ->
  cleanTop s = Ok (set_Top s (padded (widest (Top s)) <$> Top s)).
Proof.
  intros Hne Hmax. unfold cleanTop.
  destruct (Top s) as [| x0 rest] eqn:Htop; [done |].
  change (index (x0 :: rest) 0) with (Ok (A := string) x0).
  cbn [mbind outcome_bind].
  rewrite topWidth_max by apply strlen_nonneg.
  rewrite Z.max_r by (apply widest_ge, elem_of_cons; by left).
  set (w := widest (x0 :: rest)) in *.
  rewrite (for_each_fill _ (fun _ x => padded w x) (x0 :: rest) (x0 :: rest)).
  - cbn [mbind outcome_bind]. do 2 f_equal. apply imap_const.
  - done.
  - intros cur i x Hi Hcur Hdrop. simpl. unfold padded.
    assert (cur !! i = Some x) as Hcuri.
    { apply (f_equal (fun l => l !! 0%nat)) in Hdrop.
      rewrite !lookup_drop, !Nat.add_0_r in Hdrop. congruence. }
    destruct (Z.ltb_spec (strlen x) w) as [Hlt | Hge].
    + pose proof (strlen_nonneg x).
      unfold int_sub. rewrite int_wrap_id by (unfold min_int, max_int in *; lia).
      rewrite Repeat_Ok by (change (strlen " ") with 1; lia).
      simpl. apply store_of_nat. rewrite Hcur. by eapply lookup_lt_Some.
    + by rewrite list_insert_id.
Qed.

Lemma cleanTop_empty s : Top s = [] -> panics (cleanTop s).
Proof. intros Htop. unfold cleanTop. rewrite Htop. by eexists. Qed.

Lemma cleanTop_frame s s1 :
  cleanTop s = Ok s1 -> Top s <> [] /\ exists top', s1 = set_Top s top'.
Proof.
  unfold cleanTop. intros (x0 & Hx0 & (top' & _ & [= <-])%bind_Ok)%bind_Ok.
  split; [| by eexists]. intros Hnil. by rewrite Hnil in Hx0.
Qed.

Lemma padded_id (w : Z) (x : string) : w <= strlen x -> padded w x = x.
Proof. intros Hw. unfold padded. destruct (Z.ltb_spec (strlen x) w); [lia | done]. Qed.

Lemma padded_top_fixed (u : list string) :
  u <> [] ->
  let t := padded (widest u) <$> u in
  widest t = widest u /\ padded (widest t) <$> t = t.
Proof.
  intros Hne t.
  assert (widest t = widest u) as Hw.
  { apply widest_all_equal.
    - unfold t. by destruct u.
    - intros y (x & -> & Hx)%list_elem_of_fmap.
      by apply padded_strlen, widest_ge. }
  split; [done |]. rewrite Hw. unfold t. rewrite <- list_fmap_compose.
  apply list_fmap_ext. intros i x Hx. simpl.
  apply padded_id. rewrite padded_strlen; [lia |].
  by eapply widest_ge, list_elem_of_lookup_2.
Qed.

(** X13: [cleanTop] returns only on a table with a top part; it pads every
    field of the top part with spaces on the right to the length of the
    longest, so that all have that length afterwards, and changes nothing
    else in the table. *)
Theorem cleanTop_pads s s1 :
  widest (Top s) <= max_int ->
  cleanTop s = Ok s1 ->
  Top s <> [] /\
  Top s1 = padded (widest (Top s)) <$> Top s /\
  (forall x, x ∈ Top s1 -> strlen x = widest (Top s)) /\
  Title s1 = Title s /\ ColNames s1 = ColNames s /\ ColFmt s1 = ColFmt s /\
  Cols s1 = Cols s /\ Msg s1 = Msg s /\ tw s1 = tw s.
Proof.
  intros Hmax Hcall. apply cleanTop_Ok in Hcall as [-> Hne]; [| done].
  split; [done |]. split; [done |]. split; [| done].
  intros y (x & -> & Hx)%list_elem_of_fmap.
  by apply padded_strlen, widest_ge.
Qed.

Lemma cleanTop_again s s1 :
  widest (Top s) <= max_int ->
  cleanTop s = Ok s1 -> cleanTop s1 = Ok s1.
Proof.
  intros Hmax Hcall. apply cleanTop_Ok in Hcall as [-> Hne]; [| done].
  destruct (padded_top_fixed (Top s) Hne) as [Hw Hfix].
  rewrite cleanTop_compute.
  - cbn [Top set_Top]. by rewrite Hfix.
  - cbn [Top set_Top]. by destruct (Top s).
  - cbn [Top set_Top]. by rewrite Hw.
Qed.

(** X14: [cleanTop] is idempotent: on the table it returned it returns that
    table. *)
Theorem cleanTop_idempotent s s1 :
  widest (Top s) <= max_int ->
  cleanTop s = Ok s1 -> cleanTop s1 = Ok s1.
Proof. apply cleanTop_again. Qed.

Lemma rem2_index (w : list Z) (i : nat) :
  length w = 2%nat -> exists x, index w (Z.rem (Z.of_nat i) 2) = Ok x.
Proof.
  intros Hw. pose proof (Z.rem_bound_pos (Z.of_nat i) 2).
  destruct (lookup_lt_is_Some_2 w (Z.to_nat (Z.rem (Z.of_nat i) 2))) as [x Hx]; [lia |].
  exists x. apply index_Ok. split; [lia | done].
Qed.

(** [top] returns for a gap that is not negative. *)
Lemma top_Ok s (gap : Z) : 0 <= gap <= max_int -> exists txt, top s gap = Ok txt.
Proof.
  intros Hgap. unfold top.
  destruct (for_each_Ok (fun w : list Z => length w = 2%nat)
    (fun w '(j, x) =>
       wj ← index w (Z.rem j 2);
       if strlen x >? wj then store w (Z.rem j 2) (strlen x) else Ok w)
    (enumerate (Top s)) [0; 0]) as (w & -> & Hw); [done | |].
  { intros w [j x] Hw Hin.
    apply list_elem_of_lookup in Hin as [i Hi].
    apply lookup_zip_Some in Hi as [Hij Hix].
    rewrite indices_lookup in Hij by by eapply lookup_lt_Some. injection Hij as <-.
    destruct (rem2_index w i Hw) as [wj Hwj]. rewrite Hwj. simpl.
    destruct (strlen x >? wj); [| by eexists].
    pose proof (Z.rem_bound_pos (Z.of_nat i) 2).
    unfold store, len. rewrite Hw.
    destruct (Z.ltb_spec (Z.rem (Z.of_nat i) 2) 0); [lia |].
    destruct (Z.ltb_spec (Z.rem (Z.of_nat i) 2) (Z.of_nat 2)); [| lia].
    eexists. split; [done |]. by rewrite length_insert. }
  cbn [mbind outcome_bind].
  destruct (for_each_Ok (fun _ : string => True)
    (fun b '(j, x) =>
       wj ← index w (Z.rem j 2);
       if Z.rem j 2 =? 1 then Ok ((b +:+ SprintfLeft wj x) +:+ newline)
       else sp ← Repeat " " gap; Ok ((b +:+ SprintfLeft wj x) +:+ sp))
    (enumerate (Top s)) "") as (b & -> & _); [done | |].
  { intros b [j x] _ Hin.
    apply list_elem_of_lookup in Hin as [i Hi].
    apply lookup_zip_Some in Hi as [Hij Hix].
    rewrite indices_lookup in Hij by by eapply lookup_lt_Some. injection Hij as <-.
    destruct (rem2_index w i Hw) as [wj Hwj]. rewrite Hwj. simpl.
    destruct (Z.rem (Z.of_nat i) 2 =? 1); [by eexists |].
    rewrite Repeat_Ok by (change (strlen " ") with 1; lia). by eexists. }
  simpl. destruct (Z.rem (len (Top s)) 2 =? 1); by eexists.
Qed.

Lemma line_Ok s (c : string) :
  0 <= tw s -> strlen c * tw s <= max_int -> exists l, line s c = Ok l.
Proof. intros Htw Hmax. unfold line. rewrite Repeat_Ok by done. by eexists. Qed.

(** X15: rendering is repeatable: [String] on the table that a call of
    [String] left (top fields padded, total width set) returns the same text
    and leaves the same table. *)
Theorem String_idempotent s txt s' :
  widest (Top s) <= max_int ->
  String s = Ok (txt, s') -> String s' = Ok (txt, s').
Proof.
  intros Hmax Hstr.
  destruct (String_Ok s txt s' Hstr) as (s1 & tab & wx & w & Hclean & _ & _ & ->).
  pose proof (cleanTop_again s s1 Hmax Hclean) as Hagain.
  apply cleanTop_Ok in Hclean as [-> Hne]; [| done].
  unfold String in Hstr.
  rewrite (cleanTop_compute s Hne Hmax) in Hstr.
  destruct (padded_top_fixed (Top s) Hne) as [Hw Hfix].
  unfold String. rewrite cleanTop_compute.
  - cbn [Top set_Top set_tw]. rewrite Hfix. exact Hstr.
  - cbn [Top set_Top set_tw]. by destruct (Top s).
  - cbn [Top set_Top set_tw]. by rewrite Hw.
Qed.

(** The steps of a call of [String] that returns. *)
Lemma String_steps s txt s' :
  String s = Ok (txt, s') ->
  exists s1 tab wx w tab0,
    cleanTop s = Ok s1 /\ colWidths s1 = Ok (tab, wx) /\
    totalWidth s1 10 wx = Ok w /\ s' = set_tw s1 w /\
    (exists b b', for_each (fun buf '(j, c) =>
                     w ← index wx j; Ok (buf +:+ SprintfRight w c))
                   (enumerate (ColNames s1)) b = Ok b') /\
    index tab 0 = Ok tab0 /\
    (exists b b', for_each (fun buf i =>
                     buf ← for_each (fun buf j =>
                               w ← index wx j;
                               col ← index tab j;
                               cell ← index col i;
                               Ok (buf +:+ SprintfRight w cell))
                            (indices tab) buf;
                     Ok (buf +:+ newline))
                   (indices tab0) b = Ok b').
Proof.
  unfold String. intros (s1 & Hclean & Hrest)%bind_Ok.
  apply bind_Ok in Hrest as ([tab wx] & Hcw & Hrest). cbn zeta in Hrest.
  apply bind_Ok in Hrest as (w & Hw & Hrest).
  do 4 (apply bind_Ok in Hrest as (? & _ & Hrest); cbn zeta in Hrest).
  apply bind_Ok in Hrest as (bh & Hhead & Hrest). cbn zeta in Hrest.
  apply bind_Ok in Hrest as (? & _ & Hrest). cbn zeta in Hrest.
  apply bind_Ok in Hrest as (tab0 & Htab0 & Hrest).
  apply bind_Ok in Hrest as (br & Hrows & Hrest).
  apply bind_Ok in Hrest as (? & _ & Hrest). cbn zeta in Hrest.
  injection Hrest as _ <-.
  exists s1, tab, wx, w, tab0. repeat split; try done; by eexists _, _.
Qed.

(** X16: [String] returns only if the table has a top part and at least one
    column, as many column names as columns, a formatter for every column,
    and every formatter returns at least one value and at least as many
    values as the formatter of the first column. *)
Theorem String_Ok_requires s txt s' :
  String s = Ok (txt, s') ->
  Top s <> [] /\ Cols s <> [] /\
  length (ColNames s) = length (Cols s) /\
  (length (Cols s) <= length (ColFmt s))%nat /\
  exists tab tab0,
    length tab = length (Cols s) /\
    (forall j c, Cols s !! j = Some c ->
       exists f name, ColFmt s !! j = Some f /\ ColNames s !! j = Some name /\
                      tab !! j = Some (f c name)) /\
    tab !! 0%nat = Some tab0 /\ tab0 <> [] /\
    forall col, col ∈ tab -> (length tab0 <= length col)%nat.
Proof.
  intros Hstr.
  destruct (String_steps s txt s' Hstr)
    as (s1 & tab & wx & w & tab0 & Hclean & Hcw & _ & _ & Hhead & Htab0 & Hrows).
  apply cleanTop_frame in Hclean as [Hne [top' ->]].
  change (colWidths s = Ok (tab, wx)) in Hcw.
  cbn [ColNames set_Top] in Hhead.
  destruct (colWidths_Ok s tab wx Hcw) as (Hltab & Hlwx & Hall).
  apply index_Ok in Htab0 as [_ Htab0]. change (Z.to_nat 0) with 0%nat in Htab0.
  assert (Cols s <> []) as Hcols.
  { intros Hnil. apply lookup_lt_Some in Htab0. rewrite Hltab, Hnil in Htab0.
    simpl in Htab0. lia. }
  assert (tab0 <> []) as Htab0ne.
  { destruct (Cols s) as [| c0 cs] eqn:HC; [done |].
    destruct (Hall 0%nat c0 eq_refl) as (f & name & u0 & rest & _ & _ & Hu & Ht & _).
    rewrite Htab0 in Ht. injection Ht as ->. by rewrite Hu. }
  split; [done |]. split; [done |].
  assert (length (Cols s) <= length (ColNames s) /\
          length (Cols s) <= length (ColFmt s))%nat as [Hnames1 Hfmt].
  { assert (0 < length (Cols s))%nat as Hpos
      by (destruct (Cols s); [done | simpl; lia]).
    destruct (lookup_lt_is_Some_2 (Cols s) (length (Cols s) - 1)) as [c Hc]; [lia |].
    destruct (Hall _ c Hc) as (f & name & u0 & rest & Hf & Hn & _).
    apply lookup_lt_Some in Hf. apply lookup_lt_Some in Hn.
    unfold Fmter in *. lia. }
  assert (length (ColNames s) <= length (Cols s))%nat as Hnames2.
  { destruct Hhead as (b & b' & Hhead).
    destruct (decide (ColNames s = [])) as [-> | Hnn]; [simpl; lia |].
    assert (0 < length (ColNames s))%nat as Hpos
      by (destruct (ColNames s); [done | simpl; lia]).
    destruct (lookup_lt_is_Some_2 (ColNames s) (length (ColNames s) - 1)) as [n0 Hn0];
      [lia |].
    destruct (for_each_Ok_inv (fun _ : string => True) _ _ _ _
                (Z.of_nat (length (ColNames s) - 1), n0) I (fun _ _ _ _ _ => I) Hhead)
      as (b1 & b2 & _ & Hb).
    { apply list_elem_of_lookup. eexists. by apply enumerate_lookup. }
    apply bind_Ok in Hb as (wj & Hwj & _). apply index_Ok_range in Hwj.
    unfold len in Hwj. lia. }
  split; [lia |]. split; [done |].
  exists tab, tab0. split; [done |]. split.
  { intros j c Hc. destruct (Hall j c Hc) as (f & name & u0 & rest & ? & ? & _ & ? & _).
    by exists f, name. }
  split; [done |]. split; [done |].
  intros col Hcol. apply list_elem_of_lookup in Hcol as [j Hj].
  destruct Hrows as (b & b' & Hrows).
  destruct (for_each_Ok_inv (fun _ : string => True) _ _ _ _
              (len tab0 - 1) I (fun _ _ _ _ _ => I) Hrows) as (b1 & b2 & _ & Hb).
  { apply elem_of_indices. unfold len. destruct tab0; [done | simpl; lia]. }
  apply bind_Ok in Hb as (b3 & Hinner & _).
  destruct (for_each_Ok_inv (fun _ : string => True) _ _ _ _
              (Z.of_nat j) I (fun _ _ _ _ _ => I) Hinner) as (c1 & c2 & _ & Hc).
  { apply elem_of_indices. apply lookup_lt_Some in Hj. unfold len. lia. }
  apply bind_Ok in Hc as (wj & _ & Hc).
  apply bind_Ok in Hc as (col' & Hcol' & Hc).
  apply bind_Ok in Hc as (cell & Hcell & _).
  apply index_Ok in Hcol' as [_ Hcol']. rewrite Nat2Z.id, Hj in Hcol'.
  injection Hcol' as <-.
  apply index_Ok_range in Hcell. unfold len in Hcell. lia.
Qed.

(** X17: [String] returns when the first loop returns the formatted columns
    [tab] and the widths [wx], the table has a top part, there are no more
    column names than columns, every formatted column has at least as many
    values as the first, and the widths stay within the range of [int]. *)
Theorem String_total s tab wx tab0 :
  colWidths s = Ok (tab, wx) ->
  Top s <> [] ->
  (length (ColNames s) <= length (Cols s))%nat ->
  tab !! 0%nat = Some tab0 ->
  (forall col, col ∈ tab -> (length tab0 <= length col)%nat) ->
  sumZ wx <= max_int -> strlen (Title s) <= max_int ->
  10 + 2 * widest (Top s) <= max_int ->
  exists txt s', String s = Ok (txt, s').
Proof.
  intros Hcw Hne Hnames Htab0 Hrect Hsum Htitle Hmax.
  destruct (colWidths_Ok s tab wx Hcw) as (Hltab & Hlwx & _).
  pose proof (colWidths_nonneg s tab wx Hcw) as Hpos.
  pose proof (widest_nonneg (Top s)) as HW.
  pose proof (strlen_nonneg (Title s)) as HT.
  assert (0 <= sumZ wx) as Hsum0 by (clear -Hpos; induction Hpos; simpl; lia).
  cut (exists r, String s = Ok r); [intros [[txt s'] Hr]; by exists txt, s' |].
  unfold String.
  rewrite cleanTop_compute by (done || lia). cbn [mbind outcome_bind].
  set (s1 := set_Top s (padded (widest (Top s)) <$> Top s)).
  change (colWidths s1) with (colWidths s). rewrite Hcw. cbn [mbind outcome_bind].
  destruct (Top s !! 0%nat) as [x0 |] eqn:Hx0.
  2:{ apply lookup_ge_None in Hx0. destruct (Top s); [done | simpl in Hx0; lia]. }
  assert (strlen (padded (widest (Top s)) x0) = widest (Top s)) as Hpad.
  { apply padded_strlen, widest_ge. by eapply list_elem_of_lookup_2. }
  rewrite (totalWidth_Ok s1 10 wx (padded (widest (Top s)) x0));
    [| unfold s1; cbn [Top set_Top]; by rewrite list_lookup_fmap, Hx0
     | done | done | lia | rewrite Hpad; lia].
  rewrite Hpad. cbn [mbind outcome_bind Title set_tw tw]. cbn [s1 Title set_Top].
  set (T := Z.max (Z.max (sumZ wx) (strlen (Title s))) (10 + 2 * widest (Top s))).
  assert (0 <= T <= max_int) as HTr by (unfold T; lia).
  assert (strlen (Title s) <= T) as HTk by (unfold T; lia).
  apply bind_returns.
  { unfold int_sub. rewrite int_wrap_id by (unfold min_int, max_int in *; lia).
    pose proof (Z.quot_pos (T - strlen (Title s)) 2).
    assert (Z.quot (T - strlen (Title s)) 2 <= T - strlen (Title s))
      by (apply Z.quot_le_upper_bound; lia).
    destruct (Z.ltb_spec (Z.quot (T - strlen (Title s)) 2) 0); [lia |].
    rewrite Repeat_Ok by (change (strlen " ") with 1; lia). by eexists. }
  intros sp _.
  assert (Hline : forall c, strlen c = 1 -> exists l, line (set_tw s1 T) c = Ok l).
  { intros c Hc. apply line_Ok; cbn [tw set_tw]; [lia | rewrite Hc; lia]. }
  apply bind_returns; [by apply Hline |]. intros l1 _.
  apply bind_returns; [apply top_Ok; unfold max_int; lia |]. intros t _.
  apply bind_returns; [by apply Hline |]. intros l2 _.
  apply bind_returns.
  { apply for_each_returns. intros b [j c] Hin.
    apply list_elem_of_lookup in Hin as [i Hi].
    apply lookup_zip_Some in Hi as [Hij Hic].
    pose proof (lookup_lt_Some _ _ _ Hic) as Hlt.
    rewrite indices_lookup in Hij by done. injection Hij as <-.
    change (i < length (ColNames s))%nat in Hlt.
    destruct (lookup_lt_is_Some_2 wx i) as [wj Hwj]; [lia |].
    rewrite (index_of_nat _ _ _ Hwj). by eexists. }
  intros bh _.
  apply bind_returns; [by apply Hline |]. intros l3 _.
  apply bind_returns; [exists tab0; by apply index_Ok |].
  intros tab0' [_ Ht0]%index_Ok. change (Z.to_nat 0) with 0%nat in Ht0.
  rewrite Htab0 in Ht0. injection Ht0 as <-.
  apply bind_returns.
  { apply for_each_returns. intros b i Hi.
    apply list_elem_of_lookup in Hi as [i' Hi'].
    pose proof (lookup_lt_Some _ _ _ Hi') as Hilt.
    unfold indices in Hilt. rewrite length_fmap, length_seq in Hilt.
    rewrite indices_lookup in Hi' by done. injection Hi' as <-.
    apply bind_returns; [| by eexists].
    apply for_each_returns. intros b0 j Hj.
    apply list_elem_of_lookup in Hj as [j' Hj'].
    pose proof (lookup_lt_Some _ _ _ Hj') as Hjlt.
    unfold indices in Hjlt. rewrite length_fmap, length_seq in Hjlt.
    rewrite indices_lookup in Hj' by done. injection Hj' as <-.
    destruct (lookup_lt_is_Some_2 wx j') as [wj Hwj]; [lia |].
    destruct (lookup_lt_is_Some_2 tab j') as [col Hcol]; [done |].
    destruct (lookup_lt_is_Some_2 col i') as [cell Hcell].
    { pose proof (Hrect col (list_elem_of_lookup_2 _ _ _ Hcol)). lia. }
    rewrite (index_of_nat _ _ _ Hwj), (index_of_nat _ _ _ Hcol). simpl.
    rewrite (index_of_nat _ _ _ Hcell). by eexists. }
  intros br _.
  apply bind_returns; [by apply Hline |]. intros l4 _.
  by eexists.
Qed.
End S.

(** X13 and X14 at [small_table]. *)
Lemma cleanTop_pads_demo :
  exists s1, cleanTop small_table = Ok s1 /\ Top s1 = ["Model: x"; "N: 3    "; "k: 1    "].
Proof.
  destruct (cleanTop small_table) as [s1 | msg] eqn:Hcall; [| by vm_compute in Hcall].
  destruct (cleanTop_pads small_table s1) as (_ & Htop & _); [by vm_compute | done |].
  exists s1. split; [reflexivity |]. rewrite Htop. reflexivity.
Defined.

Lemma cleanTop_idempotent_demo :
  exists s1, cleanTop small_table = Ok s1 /\ cleanTop s1 = Ok s1.
Proof.
  destruct (cleanTop small_table) as [s1 | msg] eqn:Hcall; [| by vm_compute in Hcall].
  exists s1. split; [reflexivity |].
  apply (cleanTop_idempotent small_table); [by vm_compute | done].
Defined.

(** X15, X16 and X17 at [small_table]. *)
Lemma String_idempotent_demo :
  exists txt s',
    String (fmt := ascii_fmt) small_table = Ok (txt, s') /\
    String (fmt := ascii_fmt) s' = Ok (txt, s').
Proof.
  destruct (String (fmt := ascii_fmt) small_table) as [[txt s'] | msg] eqn:Hstr;
    [| by vm_compute in Hstr].
  exists txt, s'. split; [reflexivity |].
  apply (String_idempotent (fmt := ascii_fmt) small_table); [by vm_compute | done].
Defined.

Lemma String_Ok_requires_demo :
  length (ColNames small_table) = length (Cols small_table) /\
  exists (tab : list (list string)) (tab0 : list string),
    tab !! 0%nat = Some tab0 /\
    forall col, col ∈ tab -> (length tab0 <= length col)%nat.
Proof.
  destruct (String (fmt := ascii_fmt) small_table) as [[txt s'] | msg] eqn:Hstr;
    [| by vm_compute in Hstr].
  destruct (String_Ok_requires (fmt := ascii_fmt) small_table txt s' Hstr)
    as (_ & _ & Hnames & _ & tab & tab0 & _ & _ & Htab0 & _ & Hrect).
  split; [exact Hnames |]. by exists tab, tab0.
Defined.

Lemma String_total_demo :
  exists txt s', String (fmt := ascii_fmt) small_table = Ok (txt, s').
Proof.
  apply (String_total (fmt := ascii_fmt) small_table
           [["1.5"; "2.5"]; ["3"; "4"]] [3; 3] ["1.5"; "2.5"]);
    [reflexivity | done | simpl; lia | reflexivity | | by vm_compute | by vm_compute
    | by vm_compute].
  intros col [-> | [-> | []%elem_of_nil]%elem_of_cons]%elem_of_cons; simpl; lia.
Defined.

(** ** The rule lines and the top part *)

Lemma strlen_repeat_string (c : string) (n : nat) :
  strlen (repeat_string c n) = strlen c * Z.of_nat n.
Proof.
  induction n as [| n IH]; [unfold strlen; simpl; lia |].
  cbn [repeat_string]. rewrite strlen_append, IH. lia.
Qed.

Section Rules.
Context {Col : Type} {fmt : FmtPkg}.

(** X18: [line] returns exactly when the stored table width is not negative
    and the line fits an [int]; the line is then the character string
    repeated that many times and a newline, of length [len(c) * tw + 1]. *)
Theorem line_returns_iff (s : SummaryTable Col) (c : string) :
  ((exists l, line s c = Ok l) <-> 0 <= tw s /\ strlen c * tw s <= max_int) /\
  (forall l, line s c = Ok l ->
     l = repeat_string c (Z.to_nat (tw s)) +:+ newline /\
     strlen l = strlen c * tw s + 1).
Proof.
  unfold line, Repeat.
  destruct (Z.ltb_spec (tw s) 0) as [Hneg | Hpos]; simpl.
  { split; [split; [by intros [l [=]] | lia] | by intros l [=]]. }
  destruct (Z.gtb_spec (strlen c * tw s) max_int) as [Hbig | Hfit]; simpl.
  { split; [split; [by intros [l [=]] | lia] | by intros l [=]]. }
  split; [split; [lia | by eexists] |].
  intros l [= <-]. split; [done |].
  rewrite strlen_append, strlen_repeat_string, Z2Nat.id by done. done.
Qed.

(** X19: [top] returns exactly when the top part is empty or the gap is not
    negative: with a negative gap it panics at the first field, in
    [strings.Repeat]. *)
Theorem top_returns_iff (s : SummaryTable Col) (gap : Z) :
  gap <= max_int ->
  (exists txt, top s gap = Ok txt) <-> Top s = [] \/ 0 <= gap.
Proof.
  intros Hmax. split.
  - intros [txt Htop]. destruct (Top s) as [| x l] eqn:Htops; [by left |]. right.
    destruct (Z.ltb_spec gap 0) as [Hneg | Hpos]; [| done]. exfalso.
    revert Htop. unfold top. rewrite Htops.
    destruct (for_each _ (enumerate (x :: l)) [0; 0]) as [w | msg]; [| done].
    cbn [mbind outcome_bind].
    change (enumerate (x :: l)) with ((0, x) :: zip (Z.of_nat <$> seq 1 (length l)) l).
    cbn [for_each].
    change (Z.rem 0 2) with 0.
    destruct (index w 0) as [wj | msg]; [| done].
    unfold Repeat. destruct (Z.ltb_spec gap 0); [done | lia].
  - intros [Hnil | Hpos]; [| apply top_Ok; lia].
    unfold top. rewrite Hnil. by eexists.
Qed.
End Rules.

(** X18 at a table of width 3, and X19 at [small_table]. *)
Lemma line_returns_iff_demo :
  exists l, line (set_tw small_table 3) "-" = Ok l /\ strlen l = 4.
Proof.
  destruct (line_returns_iff (set_tw small_table 3) "-") as [[_ Hret] Hlen].
  destruct Hret as [l Hl]; [by vm_compute |].
  exists l. split; [done |]. by destruct (Hlen l Hl) as [_ ->].
Defined.

Lemma top_returns_iff_demo :
  (exists txt, top (fmt := ascii_fmt) small_table 10 = Ok txt) /\
  ~ (exists txt, top (fmt := ascii_fmt) small_table (-1) = Ok txt).
Proof.
  split.
  - apply (top_returns_iff (fmt := ascii_fmt) small_table 10); [by vm_compute | right; lia].
  - intros Hret.
    apply (top_returns_iff (fmt := ascii_fmt) small_table (-1)) in Hret as [[=] | Hneg];
      [lia | by vm_compute].
Defined.
